(** * kitHttp: event-framed messaging over websockets

    A shallow embedding of the websocket client ([kitHttp/clientsocket.py]),
    of the server side connection handling ([kitHttp/socket.py], which is the
    same code as [kit_http/websocket/main.py]) and of [KitHttp.broadcast]
    ([kitHttp/server.py]), with the properties of the specification that can
    be stated over them. *)

From stdpp Require Import gmap strings list fin_maps pretty.
From Stdlib Require Import ZArith Ascii.

Set Warnings "-register-all".
Open Scope string_scope.
Open Scope list_scope.

(** ** JSON values

    What [json.loads] produces and [send_json] consumes.  Python's [None] is
    [JNull]; numbers are integers here (no claim looks at a float). *)

Inductive json : Type :=
  | JNull
  | JBool (b : bool)
  | JNum (n : Z)
  | JStr (s : string)
  | JArr (items : list json)
  | JObj (fields : list (string * json)).

(** Python truthiness, as used by [if callback_id and ...], [if callback:]
    and [if value:]. *)
Definition truthy (v : json) : bool :=
  match v with
  | JNull => false
  | JBool b => b
  | JNum n => negb (n =? 0)%Z
  | JStr s => negb (String.eqb s "")
  | JArr items => negb (bool_decide (items = []))
  | JObj fields => negb (bool_decide (fields = []))
  end.

(** Python dictionaries where the order of the entries matters (iteration
    follows insertion): at most one entry per key, [d[k] = v] keeps the
    place of a key that is there and appends a new one. *)

Fixpoint dict_lookup {V : Type} (key : string) (d : list (string * V))
  : option V :=
  match d with
  | [] => None
  | (k, v) :: rest => if String.eqb k key then Some v else dict_lookup key rest
  end.

Fixpoint dict_set {V : Type} (key : string) (v : V) (d : list (string * V))
  : list (string * V) :=
  match d with
  | [] => [(key, v)]
  | (k, v') :: rest =>
      if String.eqb k key then (key, v) :: rest
      else (k, v') :: dict_set key v rest
  end.

(** [d.pop(key, None)] *)
Fixpoint dict_pop {V : Type} (key : string) (d : list (string * V))
  : list (string * V) :=
  match d with
  | [] => []
  | (k, v) :: rest =>
      if String.eqb k key then dict_pop key rest
      else (k, v) :: dict_pop key rest
  end.

Definition dict_values {V : Type} (d : list (string * V)) : list V := d.*2.

(** [d.get(key)] on a parsed object: [None] when the key is missing. *)
Definition dict_get (key : string) (fields : list (string * json)) : json :=
  default JNull (dict_lookup key fields).

(** ** The transport

    The part of an aiohttp websocket the code relies on: the [closed] flag,
    [send_json], which either queues the frame or raises, and [close].  The
    frames that went out are kept in [sent]; [faults] scripts the sends that
    raise although the socket is not closed (head [true]: the next send
    raises), an empty script meaning that all of them succeed. *)

Record WebSocket : Type := mkWebSocket {
  closed : bool;
  faults : list bool;
  sent : list json
}.

Definition fresh_ws (script : list bool) : WebSocket :=
  {| closed := false; faults := script; sent := [] |}.

(** [await ws.send_json(frame)]: [false] stands for a raised exception. *)
Definition send_json (frame : json) (w : WebSocket) : bool * WebSocket :=
  if closed w then (false, w)
  else match faults w with
       | true :: rest =>
           (false, {| closed := false; faults := rest; sent := sent w |})
       | false :: rest =>
           (true, {| closed := false; faults := rest; sent := sent w ++ [frame] |})
       | [] =>
           (true, {| closed := false; faults := []; sent := sent w ++ [frame] |})
       end.

(** [await ws.close()]. *)
Definition ws_close (w : WebSocket) : WebSocket :=
  {| closed := true; faults := faults w; sent := sent w |}.

(** The kinds of message the receive loops tell apart ([aiohttp.WSMsgType]);
    [OTHER] is any kind neither loop names. *)
Inductive WSMsg : Type :=
  | TEXT (data : string)
  | BINARY
  | CLOSED
  | ERROR
  | OTHER.

(** ** The client: [ClientSocket] *)

Module Client.

(** Callbacks are named by numbers; what calling one does is given by the
    environment (see [call] below). *)
Definition handler : Type := nat.

Record ClientSession : Type := mkSession { session_closed : bool }.

Record ClientSocket : Type := mkClient {
  ws : option WebSocket;
  session : option ClientSession;
  listener : gmap string handler;
  _running : bool
}.

(** [__init__] *)
Definition init : ClientSocket :=
  {| ws := None; session := None; listener := ∅; _running := false |}.

Definition set_ws (o : option WebSocket) (c : ClientSocket) : ClientSocket :=
  {| ws := o; session := session c; listener := listener c;
     _running := _running c |}.

Definition set_listener (m : gmap string handler) (c : ClientSocket)
  : ClientSocket :=
  {| ws := ws c; session := session c; listener := m;
     _running := _running c |}.

Definition set_session (o : option ClientSession) (c : ClientSocket)
  : ClientSocket :=
  {| ws := ws c; session := o; listener := listener c;
     _running := _running c |}.

Definition set_running (b : bool) (c : ClientSocket) : ClientSocket :=
  {| ws := ws c; session := session c; listener := listener c;
     _running := b |}.

(** [connected]: [self.ws is not None and not self.ws.closed] *)
Definition connected (c : ClientSocket) : bool :=
  match ws c with
  | Some w => negb (closed w)
  | None => false
  end.

(** [on]: [self.listener[event] = callback] *)
Definition on (event : string) (callback : handler) (c : ClientSocket)
  : ClientSocket :=
  set_listener (<[event := callback]> (listener c)) c.

(** [un]: [self.listener.pop(event, None)] *)
Definition un (event : string) (c : ClientSocket) : ClientSocket :=
  set_listener (delete event (listener c)) c.

(** [len([k for k in self.listener.keys() if k.startswith(_evt)])] *)
Definition count_prefixed (_evt : string) (m : gmap string handler) : nat :=
  List.length (List.filter (String.prefix _evt) (map_to_list m).*1).

(** The correlation token [emit] makes up for [event]. *)
Definition ask_token (event : string) (m : gmap string handler) : string :=
  let _evt := event +:+ "_ask" in
  _evt +:+ "_" +:+ pretty (count_prefixed _evt m).

(** The frame [emit] puts on the wire. *)
Definition frame (event : string) (data : json) (callback : option string)
  : json :=
  JObj ([("event", JStr event); ("data", data)]
        ++ match callback with
           | Some tok => [("callback", JStr tok)]
           | None => []
           end).

(** [emit]: the returned boolean is the method's result. *)
Definition emit (event : string) (data : json) (callback : option handler)
    (c : ClientSocket) : bool * ClientSocket :=
  match ws c with
  | None => (false, c)
  | Some w =>
      if closed w then (false, c)
      else
        let '(c1, message) :=
          match callback with
          | Some cb =>
              let _evt := ask_token event (listener c) in
              (on _evt cb c, frame event data (Some _evt))
          | None => (c, frame event data None)
          end in
        let '(ok, w') := send_json message w in
        (ok, set_ws (Some w') c1)
  end.

(** Membership of a parsed value in the registry, whose keys are strings:
    lists and objects are unhashable ([TypeError]), other non-strings are
    simply not there. *)
Inductive lookup_result : Type :=
  | Unhashable
  | Absent
  | Present (key : string) (h : handler).

Definition find_listener (k : json) (m : gmap string handler)
  : lookup_result :=
  match k with
  | JStr s => match m !! s with
              | Some h => Present s h
              | None => Absent
              end
  | JArr _ | JObj _ => Unhashable
  | JNull | JBool _ | JNum _ => Absent
  end.

(** What a call of a callback does: it returns or raises, and may have
    changed the client on the way (callbacks are closures over it). *)
Inductive outcome : Type :=
  | Returned (c : ClientSocket)
  | Raised (c : ClientSocket).

Definition state_of (o : outcome) : ClientSocket :=
  match o with Returned c | Raised c => c end.

Section Dispatch.

(** [json.loads]: [None] is a [JSONDecodeError]. *)
Variable json_loads : string -> option json.

(** [callback(data)], awaited when it is a coroutine. *)
Variable call : handler -> json -> ClientSocket -> outcome.

(** The [elif event in self.listener] branch. *)
Definition dispatch_event (event data : json) (c : ClientSocket)
  : ClientSocket * list (handler * json) :=
  match find_listener event (listener c) with
  | Present _ callback => (state_of (call callback data c), [(callback, data)])
  | Absent => (c, [])
  | Unhashable => (c, [])
  end.

(** [handle_message]: the new state and the callbacks it invoked, in
    order, each with its argument.  Every exception ends up in one of the
    two [except] clauses, which only log. *)
Definition handle_message (message : string) (c : ClientSocket)
  : ClientSocket * list (handler * json) :=
  match json_loads message with
  | None => (c, [])
  | Some (JObj response) =>
      let event := dict_get "event" response in
      let data := dict_get "data" response in
      let callback_id := dict_get "callback" response in
      if truthy callback_id then
        match find_listener callback_id (listener c) with
        | Present key callback =>
            match call callback data c with
            | Returned c' => (un key c', [(callback, data)])
            | Raised c' => (c', [(callback, data)])
            end
        | Absent => dispatch_event event data c
        | Unhashable => (c, [])
        end
      else dispatch_event event data c
  | Some _ => (c, [])
  end.

(** *** [connect], [close] and the tasks of a client

    [connect] is a coroutine that loops for as long as [_running] holds and
    suspends where it awaits the handshake, the next message and the
    reconnect delay.  A task that runs it is at one of these points, or
    [Done]; the events below are what the scheduler and the callers of the
    client can make happen between two suspensions.  (The awaits of
    [session.close()], [ws.close()] and of the status listeners are taken
    to complete without another task running in between.) *)

Inductive pc : Type :=
  | AwaitConnect
  | AwaitMessage
  | AwaitSleep
  | Done.

Inductive effect : Type :=
  | LogIgnored
  | SessionClosed
  | SessionCreated
  | WsConnect
  | Notify (status : bool)
  | Sleep.

Record Sys : Type := mkSys {
  client : ClientSocket;
  tasks : list pc;
  effects : list effect
}.

Definition init_sys : Sys :=
  {| client := init; tasks := []; effects := [] |}.

Definition with_client (c : ClientSocket) (s : Sys) : Sys :=
  {| client := c; tasks := tasks s; effects := effects s |}.

Definition log (es : list effect) (s : Sys) : Sys :=
  {| client := client s; tasks := tasks s; effects := effects s ++ es |}.

Definition set_pc (i : nat) (p : pc) (s : Sys) : Sys :=
  {| client := client s; tasks := <[i := p]> (tasks s);
     effects := effects s |}.

Definition is_active (p : pc) : bool :=
  match p with Done => false | _ => true end.

(** The number of [connect] loops that have not ended. *)
Definition count_active (l : list pc) : nat :=
  List.length (List.filter is_active l).

Definition active (s : Sys) : nat := count_active (tasks s).

(** At most one loop, and none when the client is not running. *)
Definition one_loop (s : Sys) : Prop :=
  active s <= 1 /\ (_running (client s) = false -> active s = 0).

(** The end of an iteration of the loop of [connect]: the old connection is
    dropped, then either the task sleeps or, [_running] being false, the
    test of the [while] ends it. *)
Definition end_of_attempt (i : nat) (s : Sys) : Sys :=
  let s1 := with_client (set_ws None (client s)) s in
  if _running (client s1) then set_pc i AwaitSleep (log [Sleep] s1)
  else set_pc i Done s1.

(** The test of [while self._running] followed by the call of
    [self.session.ws_connect], which raises at once without an open
    session. *)
Definition loop_head (i : nat) (s : Sys) : Sys :=
  if _running (client s) then
    match session (client s) with
    | Some se =>
        if session_closed se then end_of_attempt i (log [Notify false] s)
        else set_pc i AwaitConnect (log [WsConnect] s)
    | None => end_of_attempt i (log [Notify false] s)
    end
  else set_pc i Done s.

(** A call of [connect()], up to its first suspension: the guard, the
    replacement of the session and the entry into the loop, as a new task. *)
Definition connect (s : Sys) : Sys :=
  if _running (client s) then log [LogIgnored] s
  else
    let c1 := set_running true (client s) in
    let was_open :=
      match session c1 with
      | Some se => negb (session_closed se)
      | None => false
      end in
    let c2 := set_session (Some {| session_closed := false |}) c1 in
    loop_head (List.length (tasks s))
      {| client := c2;
         tasks := tasks s ++ [AwaitConnect];
         effects := effects s
                    ++ (if was_open then [SessionClosed] else [])
                    ++ [SessionCreated] |}.

(** [close()] *)
Definition close (s : Sys) : Sys :=
  let c1 := set_running false (client s) in
  let c2 :=
    match ws c1 with
    | Some w => if closed w then c1 else set_ws None c1
    | None => c1
    end in
  let c3 :=
    match session c2 with
    | Some se => if session_closed se then c2 else set_session None c2
    | None => c2
    end in
  with_client c3 s.

Inductive event : Type :=
  | CallConnect
  | CallClose
  | ConnectOk (i : nat) (w : WebSocket)
  | ConnectFail (i : nat)
  | Recv (i : nat) (msg : WSMsg)
  | StreamEnd (i : nat)
  | Wake (i : nat).

Definition is_close (e : event) : bool :=
  match e with CallClose => true | _ => false end.

(** One event; an event that is not enabled changes nothing. *)
Definition step (e : event) (s : Sys) : Sys :=
  match e with
  | CallConnect => connect s
  | CallClose => close s
  | ConnectOk i w =>
      match tasks s !! i with
      | Some AwaitConnect =>
          set_pc i AwaitMessage
            (log [Notify true] (with_client (set_ws (Some w) (client s)) s))
      | _ => s
      end
  | ConnectFail i =>
      match tasks s !! i with
      | Some AwaitConnect => end_of_attempt i (log [Notify false] s)
      | _ => s
      end
  | Recv i msg =>
      match tasks s !! i with
      | Some AwaitMessage =>
          match msg with
          | TEXT data => with_client (handle_message data (client s)).1 s
          | CLOSED | ERROR => end_of_attempt i s
          | BINARY | OTHER => s
          end
      | _ => s
      end
  | StreamEnd i =>
      match tasks s !! i with
      | Some AwaitMessage => end_of_attempt i s
      | _ => s
      end
  | Wake i =>
      match tasks s !! i with
      | Some AwaitSleep => loop_head i s
      | _ => s
      end
  end.

Definition run (es : list event) (s : Sys) : Sys :=
  foldl (fun acc e => step e acc) s es.

End Dispatch.

(** Two environments for concrete runs: a decoder given by a table, and
    callbacks that return at once or raise at once. *)
Definition loads_of (table : list (string * json)) (message : string)
  : option json :=
  snd <$> List.find (fun entry => String.eqb entry.1 message) table.

Definition call_returns (h : handler) (data : json) (c : ClientSocket)
  : outcome := Returned c.

Definition call_raises (h : handler) (data : json) (c : ClientSocket)
  : outcome := Raised c.

(** *** Concrete clients and messages *)

(** A connected client on which two requests for ["a"] are pending, after
    the reply to the first one has come in. *)
Definition reply_table : list (string * json) :=
  [("reply-0", frame "a" (JStr "done") (Some "a_ask_0"))].

Definition two_pending : ClientSocket :=
  let c0 := set_ws (Some (fresh_ws [])) init in
  let c1 := (emit "a" JNull (Some 1) c0).2 in
  (emit "a" JNull (Some 2) c1).2.

Definition one_answered : ClientSocket :=
  (handle_message (loads_of reply_table) call_returns "reply-0" two_pending).1.

(** A client with a reply callback pending under [echo_ask_0] and a
    persistent listener on ["echo"]. *)
Definition echo_table : list (string * json) :=
  [("reply", frame "echo" (JStr "hi-back") (Some "echo_ask_0"))].

Definition echo_client : ClientSocket :=
  (emit "echo" (JStr "hi") (Some 1)
     (on "echo" 7 (set_ws (Some (fresh_ws [])) init))).2.

Definition echo_answered : ClientSocket :=
  (handle_message (loads_of echo_table) call_returns "reply" echo_client).1.

(** A connected client whose next send raises. *)
Definition failing_client : ClientSocket :=
  set_ws (Some (fresh_ws [true])) init.

(** A client whose loop sleeps between two attempts when [close()] is
    called, and the same after a further [connect()], the end of the sleep
    and two handshakes. *)
Definition closed_while_asleep : Sys :=
  run (loads_of []) call_returns [CallConnect; ConnectFail 0; CallClose] init_sys.

Definition connected_again : Sys :=
  run (loads_of []) call_returns
    [CallConnect; Wake 0; ConnectOk 1 (fresh_ws []); ConnectOk 0 (fresh_ws [])]
    closed_while_asleep.

(** Frames that name a listener in their [callback] field. *)
Definition notify_table : list (string * json) :=
  [("by-token", JObj [("event", JStr "other"); ("data", JNum 1);
                      ("callback", JStr "notification")]);
   ("empty-token", JObj [("event", JStr "other"); ("data", JNum 1);
                         ("callback", JStr "")])].

End Client.

(** ** The server: connections, dispatch and broadcast *)

Module Server.

(** [IO] in [kitHttp/socket.py], [Socket] in [kit_http/websocket/socket.py]:
    the transport, held by reference, and the connection id. *)
Record IO : Type := mkIO {
  ws : nat;
  _id : string
}.

(** The state the server code works on: the registry of the application
    ([self._socket_clients], a [WeakValueDictionary]), the transports by
    address, and the items stored in the request of the connection at hand
    ([request["event"]], [request["callback"]]). *)
Record Env : Type := mkEnv {
  _socket_clients : list (string * IO);
  heap : gmap nat WebSocket;
  request : list (string * json)
}.

Definition set_clients (d : list (string * IO)) (env : Env) : Env :=
  {| _socket_clients := d; heap := heap env; request := request env |}.

Definition set_heap (h : gmap nat WebSocket) (env : Env) : Env :=
  {| _socket_clients := _socket_clients env; heap := h;
     request := request env |}.

Definition set_request (r : list (string * json)) (env : Env) : Env :=
  {| _socket_clients := _socket_clients env; heap := heap env;
     request := r |}.

(** *** Exceptions and the monad of the server code *)

Inductive exn : Type :=
  | JSONDecodeError
  | Exception (message : string).

(** [str(e)] *)
Definition str (e : exn) : string :=
  match e with
  | JSONDecodeError => "Expecting value"
  | Exception message => message
  end.

Inductive result (A : Type) : Type :=
  | Ok (a : A)
  | Err (e : exn).
Arguments Ok {A} a.
Arguments Err {A} e.

Definition M (A : Type) : Type := Env -> result A * Env.

Definition ret {A : Type} (a : A) : M A := fun env => (Ok a, env).

Definition bind {A B : Type} (m : M A) (k : A -> M B) : M B :=
  fun env =>
    match m env with
    | (Ok a, env') => k a env'
    | (Err e, env') => (Err e, env')
    end.

Definition raise {A : Type} (e : exn) : M A := fun env => (Err e, env).

(** [try: m / except Exception as e: h e] *)
Definition try_except {A : Type} (m : M A) (h : exn -> M A) : M A :=
  fun env =>
    match m env with
    | (Ok a, env') => (Ok a, env')
    | (Err e, env') => h e env'
    end.

(** [try: m / finally: cleanup] *)
Definition try_finally {A : Type} (m : M A) (cleanup : M unit) : M A :=
  fun env =>
    match m env with
    | (r, env') =>
        match cleanup env' with
        | (Ok _, env'') => (r, env'')
        | (Err e, env'') => (Err e, env'')
        end
    end.

Definition gets {A : Type} (f : Env -> A) : M A := fun env => (Ok (f env), env).

Definition modify (f : Env -> Env) : M unit := fun env => (Ok tt, f env).

Declare Scope server_scope.
Delimit Scope server_scope with server.
Notation "x <- m ;; k" := (bind m (fun x => k))
  (at level 100, m at next level, right associativity) : server_scope.
Notation "m ;; k" := (bind m (fun _ => k))
  (at level 100, right associativity) : server_scope.
Open Scope server_scope.

(** *** The transport of a connection *)

(** [ws.closed] *)
Definition ws_closed (a : nat) : M bool :=
  fun env =>
    match heap env !! a with
    | Some w => (Ok (closed w), env)
    | None => (Err (Exception "no such transport"), env)
    end.

(** [await ws.send_json(frame)] *)
Definition ws_send_json (a : nat) (frame : json) : M unit :=
  fun env =>
    match heap env !! a with
    | Some w =>
        let '(ok, w') := send_json frame w in
        let env' := set_heap (<[a := w']> (heap env)) env in
        if ok then (Ok tt, env')
        else (Err (Exception "Cannot write to closing transport"), env')
    | None => (Err (Exception "no such transport"), env)
    end.

(** [await ws.close(...)] *)
Definition ws_close_at (a : nat) : M unit :=
  fun env =>
    match heap env !! a with
    | Some w => (Ok tt, set_heap (<[a := ws_close w]> (heap env)) env)
    | None => (Err (Exception "no such transport"), env)
    end.

(** [IO.emit]; the event is whatever the caller passes, for [todo] the
    value found in the payload. *)
Definition io_emit (io : IO) (event data : json) : M unit :=
  ws_send_json (ws io) (JObj [("event", event); ("data", data)]).

(** [IO.close] *)
Definition io_close (io : IO) : M unit :=
  c <- ws_closed (ws io) ;;
  if c then ret tt else ws_close_at (ws io).

(** [request[key]], a [KeyError] when the key was never stored. *)
Definition request_get (key : string) : M json :=
  fun env =>
    match dict_lookup key (request env) with
    | Some v => (Ok v, env)
    | None => (Err (Exception key), env)
    end.

(** [request[key] = v] *)
Definition request_set (key : string) (v : json) : M unit :=
  modify (fun env => set_request (dict_set key v (request env)) env).

(** [ask]: the reply capability handed to a handler. *)
Definition ask (data : json) (io : IO) : M unit :=
  c <- ws_closed (ws io) ;;
  if c then ret tt
  else
    event <- request_get "event" ;;
    callback <- request_get "callback" ;;
    ws_send_json (ws io)
      (JObj [("event", event); ("data", data); ("callback", callback)]).

(** *** Handlers

    A handler is application code.  Given the event, the data and whether
    the reply capability was passed to it, it does a sequence of things on
    its connection and then returns a value ([JNull] for nothing) or
    raises. *)

Inductive action : Type :=
  | Reply (value : json)
  | Push (event data : json)
  | Hangup.

Inductive ending : Type :=
  | Return (value : json)
  | Raise (message : string).

Definition Handler : Type := json -> json -> bool -> list action * ending.

Fixpoint perform (io : IO) (has_callback : bool) (acts : list action)
  : M unit :=
  match acts with
  | [] => ret tt
  | Reply value :: rest =>
      (if has_callback then ask value io
       else raise (Exception "'NoneType' object is not callable")) ;;
      perform io has_callback rest
  | Push event data :: rest =>
      io_emit io event data ;; perform io has_callback rest
  | Hangup :: rest =>
      io_close io ;; perform io has_callback rest
  end.

Inductive stream_end : Type :=
  | EndClosed
  | EndClosing
  | ReceiveRaises (message : string).

Inductive Response : Type :=
  | JsonResponse (status : nat) (body : json)
  | WebSocketResponse (a : nat).

Section Dispatch.

(** [json.loads]: [None] is a [JSONDecodeError]. *)
Variable json_loads : string -> option json.

(** [getattr(self, f"{event}Event")] when [hasattr] finds it. *)
Variable event_handler : json -> option Handler.

Definition resolve (event : json) (handler : Handler) : Handler :=
  match event_handler event with
  | Some h => h
  | None => handler
  end.

(** [todo]: a payload that is not an object has no [get] and raises before
    the [try]. *)
Definition todo (io : IO) (payload : json) (handler : Handler) : M unit :=
  match payload with
  | JObj fields =>
      let event := dict_get "event" fields in
      let data := dict_get "data" fields in
      let callback := dict_get "callback" fields in
      (if truthy callback
       then request_set "event" event ;; request_set "callback" callback
       else ret tt) ;;
      try_except
        (let '(acts, fin) := resolve event handler event data (truthy callback) in
         perform io (truthy callback) acts ;;
         match fin with
         | Return value =>
             if truthy value then io_emit io event value else ret tt
         | Raise message => raise (Exception message)
         end)
        (fun e => io_emit io (JStr "error") (JObj [("message", JStr (str e))]))
  | _ => raise (Exception "object has no attribute 'get'")
  end.

(** The body of the receive loop for one message. *)
Definition loop_body (io : IO) (handler : Handler) (msg : WSMsg) : M unit :=
  match msg with
  | TEXT data =>
      try_except
        (match json_loads data with
         | Some payload => todo io payload handler
         | None => raise JSONDecodeError
         end)
        (fun e =>
           match e with
           | JSONDecodeError =>
               io_emit io (JStr "error")
                 (JObj [("message", JStr "Invalid JSON format")])
           | Exception _ =>
               io_emit io (JStr "error")
                 (JObj [("message", JStr "An unexpected error occurred");
                        ("error", JStr (str e))])
           end)
  | BINARY | CLOSED | ERROR | OTHER => ret tt
  end.

(** [async for msg in ws]: the iteration stops once the transport is closed
    and when the stream ends, which leaves the transport closed
    ([EndClosed]), closing ([EndClosing]) or raises. *)
Fixpoint receive_loop (io : IO) (handler : Handler) (inbound : list WSMsg)
    (stop : stream_end) : M unit :=
  match inbound with
  | [] =>
      match stop with
      | EndClosed => io_close io
      | EndClosing => ret tt
      | ReceiveRaises message => raise (Exception message)
      end
  | msg :: rest =>
      c <- ws_closed (ws io) ;;
      if c then ret tt
      else loop_body io handler msg ;; receive_loop io handler rest stop
  end.

(** [ws = web.WebSocketResponse()]: a new transport, at a new address. *)
Definition new_ws (script : list bool) : M nat :=
  fun env =>
    let a := fresh (dom (heap env)) in
    (Ok a, set_heap (<[a := fresh_ws script]> (heap env)) env).

(** [init_websocket] ([websocket] in [kit_http]).  [_id] is the id taken
    from the arguments or drawn at random, [can_prepare] the answer of
    [ws.can_prepare(request)]; [script], [inbound] and [stop] are what the
    new transport will do. *)
Definition init_websocket (_id : string) (can_prepare : bool)
    (script : list bool) (inbound : list WSMsg) (stop : stream_end)
    (handler : Handler) : M Response :=
  a <- new_ws script ;;
  let io := {| ws := a; _id := _id |} in
  modify (fun env => set_clients (dict_set _id io (_socket_clients env)) env) ;;
  if negb can_prepare
  then ret (JsonResponse 400 (JObj [("error", JStr "Not a WebSocket request")]))
  else
    try_finally
      (receive_loop io handler inbound stop)
      (io_close io ;;
       modify (fun env => set_clients (dict_pop _id (_socket_clients env)) env)) ;;
    ret (WebSocketResponse a).

End Dispatch.

(** What remains of the weak registry once the object at [a] is no longer
    referenced: its entries go. *)
Definition reclaim (a : nat) (env : Env) : Env :=
  {| _socket_clients :=
       List.filter (fun entry => negb (Nat.eqb (ws entry.2) a)) (_socket_clients env);
     heap := delete a (heap env);
     request := request env |}.

(** [KitHttp.broadcast] *)
Fixpoint emit_all (targets : list IO) (event data : json) : M unit :=
  match targets with
  | [] => ret tt
  | io :: rest => io_emit io event data ;; emit_all rest event data
  end.

(** [[io for io in self._socket_clients.values()
      if filter is None or filter(io)]] *)
Definition targets (filter : option (IO -> bool)) (env : Env) : list IO :=
  List.filter (fun io => match filter with
                         | None => true
                         | Some f => f io
                         end)
              (dict_values (_socket_clients env)).

Definition broadcast (event : string) (data : json)
    (filter : option (IO -> bool)) : M unit :=
  ios <- gets (targets filter) ;;
  emit_all ios (JStr event) data.

(** A transport on which the next send goes through. *)
Definition sendable (w : WebSocket) : bool :=
  negb (closed w)
  && match faults w with
     | true :: _ => false
     | _ => true
     end.

Definition ready (env : Env) (io : IO) : bool :=
  match heap env !! ws io with
  | Some w => sendable w
  | None => false
  end.

(** Between [env] and [env'] the connection was sent [frame] and nothing
    else, respectively nothing at all. *)
Definition received (frame : json) (env env' : Env) (io : IO) : Prop :=
  sent <$> heap env' !! ws io = (fun w => (sent w ++ [frame])%list) <$> heap env !! ws io.

Definition untouched (env env' : Env) (io : IO) : Prop :=
  heap env' !! ws io = heap env !! ws io.

(** A computation that leaves the transport at [a] in place. *)
Definition keeps (a : nat) {A : Type} (m : M A) : Prop :=
  forall env, is_Some (heap env !! a) -> is_Some (heap (m env).2 !! a).


(** *** Concrete servers *)

Definition no_event_handler (event : json) : option Handler := None.

Definition no_loads (message : string) : option json := None.

(** A handler that replies [X] through the capability and returns [Y]. *)
Definition reply_and_return (X Y : json) : Handler :=
  fun _ _ _ => ([Reply X], Return Y).

Definition echo_fields : list (string * json) :=
  [("event", JStr "echo"); ("data", JStr "hi");
   ("callback", JStr "echo_ask_0")].

(** One live connection, registered under ["42"]. *)
Definition one_connection : Env :=
  {| _socket_clients := [("42", {| ws := 0; _id := "42" |})];
     heap := {[ 0 := fresh_ws [] ]};
     request := [] |}.

Definition echo_io : IO := {| ws := 0; _id := "42" |}.

(** A request with the id ["42"] that cannot be prepared as a websocket. *)
Definition failed_upgrade : result Response * Env :=
  init_websocket no_loads no_event_handler "42" false [] [] EndClosed
    (reply_and_return JNull JNull) one_connection.

(** Three live connections; the next send to the second one raises. *)
Definition three_connections : Env :=
  {| _socket_clients := [("a", {| ws := 0; _id := "a" |});
                         ("b", {| ws := 1; _id := "b" |});
                         ("c", {| ws := 2; _id := "c" |})];
     heap := {[ 0 := fresh_ws []; 1 := fresh_ws [true]; 2 := fresh_ws [] ]};
     request := [] |}.

End Server.

(** ** More of the client: receive loop, status listeners, tokens *)

Module ClientMore.
Import Client.

Section Loop.

Variable json_loads : string -> option json.
Variable call : handler -> json -> ClientSocket -> outcome.

(** The [async for] of [listen_messages] over the messages the transport
    yields: text is handled, a [CLOSED] or [ERROR] message breaks out of the
    loop, anything else is skipped.  The result is the client and the
    callbacks invoked, in order. *)
Fixpoint listen_loop (msgs : list WSMsg) (c : ClientSocket)
  : ClientSocket * list (handler * json) :=
  match msgs with
  | [] => (c, [])
  | TEXT data :: rest =>
      let '(c1, fired1) := handle_message json_loads call data c in
      let '(c2, fired2) := listen_loop rest c1 in
      (c2, fired1 ++ fired2)
  | CLOSED :: _ => (c, [])
  | ERROR :: _ => (c, [])
  | BINARY :: rest => listen_loop rest c
  | OTHER :: rest => listen_loop rest c
  end.


(** [listen_messages]: nothing to do without a transport. *)
Definition listen_messages (msgs : list WSMsg) (c : ClientSocket)
  : ClientSocket * list (handler * json) :=
  match ws c with
  | None => (c, [])
  | Some _ => listen_loop msgs c
  end.

End Loop.

Definition is_stop (msg : WSMsg) : bool :=
  match msg with
  | CLOSED | ERROR => true
  | TEXT _ | BINARY | OTHER => false
  end.

(** *** Status listeners

    [ClientSocket] with the list [_status_listeners], which none of the
    functions above reads. *)
Record Observed : Type := mkObserved {
  socket : ClientSocket;
  _status_listeners : list handler
}.

(** [add_status_listener] *)
Definition add_status_listener (l : handler) (o : Observed) : Observed :=
  {| socket := socket o; _status_listeners := _status_listeners o ++ [l] |}.

(** A listener returns or raises, and may have changed the client and the
    list of listeners. *)
Inductive status_outcome : Type :=
  | StatusReturned (o : Observed)
  | StatusRaised (o : Observed).

Definition status_state (r : status_outcome) : Observed :=
  match r with StatusReturned o | StatusRaised o => o end.

Section Status.

(** [await listener(connected, error)] *)
Variable status_call :
  handler -> bool -> option string -> Observed -> status_outcome.

(** The [for listener in self._status_listeners] of
    [_notify_status_change], which walks the list as it is at each step; an
    exception of a listener is logged and the walk goes on.  [None] when
    the fuel runs out before the end of the list is reached. *)
Fixpoint notify_from (fuel i : nat) (connected : bool) (error : option string)
    (o : Observed) : option (Observed * list handler) :=
  match fuel with
  | 0 => None
  | S fuel' =>
      match _status_listeners o !! i with
      | None => Some (o, [])
      | Some l =>
          let o1 := status_state (status_call l connected error o) in
          match notify_from fuel' (S i) connected error o1 with
          | Some (o2, called) => Some (o2, l :: called)
          | None => None
          end
      end
  end.

(** [_notify_status_change]: the state and the listeners called, in order. *)
Definition _notify_status_change (fuel : nat) (connected : bool)
    (error : option string) (o : Observed) : option (Observed * list handler) :=
  notify_from fuel 0 connected error o.

End Status.

(** A listener that raises whenever it is called, and the others return. *)
Definition odd_raises (l : handler) (connected : bool) (error : option string)
    (o : Observed) : status_outcome :=
  if Nat.odd l then StatusRaised o else StatusReturned o.

(** Messages for a client that listens on ["tick"]. *)
Definition tick_table : list (string * json) :=
  [("t1", JObj [("event", JStr "tick"); ("data", JNum 1)]);
   ("t2", JObj [("event", JStr "tick"); ("data", JNum 2)]);
   ("list", JArr [JNum 1]);
   ("stray", JObj [("event", JStr "unknown"); ("data", JNum 3)])].

(** *** Tokens *)

(** The token [emit] makes up when [n] keys start with the prefix. *)
Definition nth_token (event : string) (n : nat) : string :=
  (event +:+ "_ask") +:+ "_" +:+ pretty n.

(** The keys that start with [<event>_ask] are the tokens numbered below
    their count. *)
Definition dense (event : string) (m : gmap string handler) : Prop :=
  forall k, is_Some (m !! k) ->
    String.prefix (event +:+ "_ask") k = true ->
    exists i, i < count_prefixed (event +:+ "_ask") m /\ k = nth_token event i.

(** *** Handshakes *)

Definition is_handshake (e : effect) : bool :=
  match e with WsConnect => true | _ => false end.

(** The number of handshakes started so far. *)
Definition handshakes (s : Sys) : nat :=
  List.length (List.filter is_handshake (effects s)).

Definition is_connect (e : event) : bool :=
  match e with CallConnect => true | _ => false end.

(** Not running, no handshake since [s0], and no more loops than in [s0]. *)
Definition wound_down (s0 s : Sys) : Prop :=
  _running (client s) = false /\
  handshakes s = handshakes s0 /\
  active s <= active s0.

End ClientMore.

(** ** More of the server: shutdown and what a connection can touch *)

Module ServerMore.
Import Server.

(** [[io for io in self._socket_clients.values() if not io.ws.closed]] *)
Definition is_open (env : Env) (io : IO) : bool :=
  match heap env !! ws io with
  | Some w => negb (closed w)
  | None => false
  end.

Fixpoint close_all (ios : list IO) : M unit :=
  match ios with
  | [] => ret tt
  | io :: rest => io_close io ;; close_all rest
  end.

(** [KitHttp.stop], up to the shutdown of the aiohttp application: every
    registered connection that is open is closed. *)
Definition stop : M unit :=
  fun env =>
    match _socket_clients env with
    | [] => (Ok tt, env)
    | _ :: _ =>
        close_all (List.filter (is_open env) (dict_values (_socket_clients env))) env
    end.

(** The transport at [a] is open and no send on it will raise. *)
Definition steady (a : nat) (env : Env) : Prop :=
  exists w, heap env !! a = Some w /\ closed w = false /\ faults w = [].

(** On a steady transport the computation leaves it steady, respectively
    leaves it steady and does not raise. *)
Definition calm (a : nat) {A : Type} (m : M A) : Prop :=
  forall env, steady a env -> steady a (m env).2.

Definition safe (a : nat) {A : Type} (m : M A) : Prop :=
  forall env, steady a env -> (exists x, (m env).1 = Ok x) /\ steady a (m env).2.

(** A handler that never closes its connection. *)
Definition never_hangs_up (h : Handler) : Prop :=
  forall event data has_callback, Hangup ∉ (h event data has_callback).1.

(** The frame of an [error] event. *)
Definition error_frame (fields : list (string * json)) : json :=
  JObj [("event", JStr "error"); ("data", JObj fields)].

(** A handler that raises at once. *)
Definition raises (message : string) : Handler :=
  fun _ _ _ => ([], Raise message).

Definition loads_of (table : list (string * json)) (message : string)
  : option json :=
  snd <$> List.find (fun entry => String.eqb entry.1 message) table.

End ServerMore.

(** ** The router: routes from method names *)

Module Router.

Definition chars (s : string) : list Ascii.ascii := String.list_ascii_of_string s.

Definition text (l : list Ascii.ascii) : string := String.string_of_list_ascii l.

Fixpoint starts_with (p l : list Ascii.ascii) : bool :=
  match p, l with
  | [], _ => true
  | _ :: _, [] => false
  | a :: p', b :: l' => if Ascii.eqb a b then starts_with p' l' else false
  end.

(** [s.endswith(suffix)] *)
Definition endswith (s suffix : string) : bool :=
  starts_with (rev (chars suffix)) (rev (chars s)).

(** [s] without its last [len(suffix)] characters. *)
Definition remove_suffix (s suffix : string) : string :=
  text (rev (drop (List.length (chars suffix)) (rev (chars s)))).

(** [s.replace("_", "/")] *)
Definition replace_underscores (s : string) : string :=
  text (List.map (fun c => if Ascii.eqb c "_" then "/"%char else c) (chars s)).

Fixpoint lstrip_slash (l : list Ascii.ascii) : list Ascii.ascii :=
  match l with
  | c :: rest => if Ascii.eqb c "/" then lstrip_slash rest else l
  | [] => []
  end.

(** [s.rstrip("/")] *)
Definition rstrip_slash (s : string) : string :=
  text (rev (lstrip_slash (rev (chars s)))).

(** [method_suffixes], in the order of the dictionary. *)
Definition method_suffixes : list (string * list string) :=
  [("GET", ["Get"; "Socket"]); ("POST", ["Post"]); ("PUT", ["Put"]);
   ("DELETE", ["Delete"]); ("ACTION", ["Action"])].

Definition all_suffixes : list string :=
  List.flat_map snd method_suffixes.

(** [regex.search(name) is not None] for the pattern
    [(Get|Socket|Post|Put|Delete|Action)$]. *)
Definition regex_search (name : string) : bool :=
  List.existsb (endswith name) all_suffixes.

(** [regex.sub("", name)] *)
Definition regex_sub (name : string) : string :=
  match List.find (endswith name) all_suffixes with
  | Some suffix => remove_suffix name suffix
  | None => name
  end.

(** A route: method, path and the name of the method that handles it. *)
Definition Route : Type := string * string * string.

(** The body of the loop over the coroutine methods in [_register_routes]:
    the calls of [add_route] made for the method [name]. *)
Definition member_routes (prefix name : string) : list Route :=
  if negb (regex_search name) || String.eqb name "indexGet" then []
  else
    let path_name := regex_sub name in
    let path := replace_underscores (prefix +:+ "/" +:+ path_name) in
    List.flat_map
      (fun entry : string * list string =>
         List.flat_map
           (fun suffix =>
              if endswith name suffix then
                if String.eqb entry.1 "ACTION"
                then [("GET", path, name); ("POST", path, name)]
                else [(entry.1, path, name)]
              else [])
           entry.2)
      method_suffixes.

(** [_register_routes] for an object that has [favicon_icoGet], as
    [KitHttp] does: the calls of [add_route], in order.  [has_index] is
    [hasattr(cls, "indexGet")], [members] the names of the coroutine
    methods. *)
Definition _register_routes (prefix : string) (has_index : bool)
    (members : list string) : list Route :=
  (if has_index then
     let nonempty := negb (String.eqb prefix "") in
     [("GET", if nonempty then prefix +:+ "/" else "/", "indexGet");
      ("GET", if nonempty then prefix else "", "indexGet");
      ("GET", if nonempty then prefix +:+ "/index" else "/index", "indexGet")]
   else [])
  ++ [("GET", "/favicon.ico", "favicon_icoGet")]
  ++ List.flat_map (member_routes prefix) members.

(** [Router.__init__] *)
Definition routes (prefix : string) (has_index : bool) (members : list string)
  : list Route :=
  _register_routes (rstrip_slash prefix) has_index members.

(** The methods a suffix stands for. *)
Definition methods_of (suffix : string) : list string :=
  if String.eqb suffix "Get" then ["GET"]
  else if String.eqb suffix "Socket" then ["GET"]
  else if String.eqb suffix "Post" then ["POST"]
  else if String.eqb suffix "Put" then ["PUT"]
  else if String.eqb suffix "Delete" then ["DELETE"]
  else if String.eqb suffix "Action" then ["GET"; "POST"]
  else [].

End Router.

(** * Properties of the client *)

Module ClientProps.
Import Client.

Lemma truthy_token (k : string) : k ≠ "" -> truthy (JStr k) = true.
Proof.
  intros Hk. simpl. destruct (String.eqb_spec k ""); [contradiction | reflexivity].
Qed.

Section Dispatch.

Variable json_loads : string -> option json.
Variable call : handler -> json -> ClientSocket -> outcome.

(** A frame whose [callback] names a registered key goes to that entry, and
    the entry is popped when its callback returns. *)
Lemma handle_message_token_hit message fields k h c :
  json_loads message = Some (JObj fields) ->
  dict_get "callback" fields = JStr k ->
  k ≠ "" ->
  listener c !! k = Some h ->
  handle_message json_loads call message c =
    match call h (dict_get "data" fields) c with
    | Returned c' => (un k c', [(h, dict_get "data" fields)])
    | Raised c' => (c', [(h, dict_get "data" fields)])
    end.
Proof.
  intros Hload Hcb Hk Hreg. unfold handle_message.
  rewrite Hload, Hcb, (truthy_token k Hk). simpl. rewrite Hreg. reflexivity.
Qed.

(** A frame whose [callback] names no registered key is dispatched on its
    [event]. *)
Lemma handle_message_token_miss message fields k c :
  json_loads message = Some (JObj fields) ->
  dict_get "callback" fields = JStr k ->
  listener c !! k = None ->
  handle_message json_loads call message c =
    dispatch_event call (dict_get "event" fields) (dict_get "data" fields) c.
Proof.
  intros Hload Hcb Hreg. unfold handle_message. rewrite Hload, Hcb.
  destruct (truthy (JStr k)); [| reflexivity].
  simpl. rewrite Hreg. reflexivity.
Qed.

Lemma dispatch_event_fired event data c :
  (dispatch_event call event data c).2 =
    match find_listener event (listener c) with
    | Present _ g => [(g, data)]
    | Absent | Unhashable => []
    end.
Proof. unfold dispatch_event. destruct (find_listener _ _); reflexivity. Qed.

Lemma listener_un_eq k c : listener (un k c) !! k = None.
Proof. unfold un. simpl. apply lookup_delete_eq. Qed.

End Dispatch.

(** ** Sending *)

(** C7: [emit] on a client that is not connected returns [false] and leaves
    the client as it was: no frame goes out and the listener registry is
    the same, whether or not a callback was passed. *)
Theorem emit_not_connected (event : string) (data : json)
    (callback : option handler) (c : ClientSocket) :
  connected c = false ->
  emit event data callback c = (false, c).
Proof.
  unfold connected, emit. destruct (ws c) as [w|]; [| reflexivity].
  destruct (closed w); [reflexivity | discriminate].
Qed.

Lemma emit_not_connected_witness :
  connected init = false /\
  emit "chat" (JStr "hello") (Some 1) init = (false, init).
Proof.
  split; [reflexivity | apply (emit_not_connected "chat" (JStr "hello") (Some 1) init); reflexivity].
Defined.

(** C10: when [emit] is called on a connected client with a callback and the
    send raises, [emit] returns [false], no frame went out, and the callback
    stays registered under the token made up for this call. *)
Theorem emit_send_failure_keeps_callback (event : string) (data : json)
    (cb : handler) (c : ClientSocket) (w : WebSocket) (rest : list bool) :
  ws c = Some w ->
  closed w = false ->
  faults w = true :: rest ->
  let token := ask_token event (listener c) in
  let out := emit event data (Some cb) c in
  out.1 = false /\
  listener out.2 !! token = Some cb /\
  token = event +:+ "_ask_" +:+ pretty (count_prefixed (event +:+ "_ask") (listener c)) /\
  sent <$> ws out.2 = Some (sent w).
Proof.
  intros Hws Hopen Hfault. unfold emit. rewrite Hws, Hopen.
  unfold send_json. rewrite Hopen, Hfault. simpl.
  repeat split.
  - apply lookup_insert_eq.
  - unfold ask_token. simpl.
    generalize (pretty (count_prefixed (event +:+ "_ask") (listener c))).
    intros n. unfold String.app. 
    induction event as [|ch e IH]; simpl; [reflexivity | f_equal; exact IH].
Qed.

Lemma emit_send_failure_keeps_callback_witness :
  (emit "get_users" JNull (Some 4) failing_client).1 = false /\
  listener (emit "get_users" JNull (Some 4) failing_client).2 !! "get_users_ask_0"
    = Some 4.
Proof.
  pose proof (emit_send_failure_keeps_callback "get_users" JNull 4 failing_client
                (fresh_ws [true]) [] eq_refl eq_refl eq_refl) as H.
  split; [exact (proj1 H) | exact (proj1 (proj2 H))].
Defined.

(** ** Correlation tokens *)

(** C1: the token is not always fresh.  With the requests [a_ask_0] and
    [a_ask_1] pending and the first one answered, one registered key starts
    with [a_ask], so the next [emit] on ["a"] makes up [a_ask_1] again: the
    key is in the registry, bound to the callback of the second request,
    and the call replaces that callback. *)
Theorem emit_reuses_pending_token :
  listener two_pending !! "a_ask_0" = Some 1 /\
  listener two_pending !! "a_ask_1" = Some 2 /\
  listener one_answered !! "a_ask_0" = None /\
  listener one_answered !! "a_ask_1" = Some 2 /\
  ask_token "a" (listener one_answered) = "a_ask_1" /\
  (emit "a" JNull (Some 3) one_answered).1 = true /\
  listener (emit "a" JNull (Some 3) one_answered).2 !! "a_ask_1" = Some 3 /\
  (sent <$> ws (emit "a" JNull (Some 3) one_answered).2) =
    Some [frame "a" JNull (Some "a_ask_0");
          frame "a" JNull (Some "a_ask_1");
          frame "a" JNull (Some "a_ask_1")].
Proof. vm_compute. repeat split; reflexivity. Qed.

(** ** One-shot replies *)

(** C2, as the code has it: the first frame that carries the token of a
    registered reply callback invokes that callback once and, when it
    returns, removes the registration; a second frame with the same token
    no longer reaches it and is dispatched on its [event] field: it invokes
    the listener registered under that event, if there is one, and nothing
    otherwise. *)
Theorem one_shot_reply (json_loads : string -> option json)
    (call : handler -> json -> ClientSocket -> outcome)
    (first second : string) (fields1 fields2 : list (string * json))
    (token : string) (h : handler) (c c' : ClientSocket) :
  json_loads first = Some (JObj fields1) ->
  dict_get "callback" fields1 = JStr token ->
  json_loads second = Some (JObj fields2) ->
  dict_get "callback" fields2 = JStr token ->
  token ≠ "" ->
  listener c !! token = Some h ->
  call h (dict_get "data" fields1) c = Returned c' ->
  handle_message json_loads call first c
    = (un token c', [(h, dict_get "data" fields1)]) /\
  listener (un token c') !! token = None /\
  (handle_message json_loads call second (un token c')).2
    = match find_listener (dict_get "event" fields2) (listener (un token c')) with
      | Present _ g => [(g, dict_get "data" fields2)]
      | Absent | Unhashable => []
      end.
Proof.
  intros Hl1 Hc1 Hl2 Hc2 Hne Hreg Hcall.
  split; [| split].
  - rewrite (handle_message_token_hit json_loads call first fields1 token h c Hl1 Hc1 Hne Hreg).
    rewrite Hcall. reflexivity.
  - apply listener_un_eq.
  - rewrite (handle_message_token_miss json_loads call second fields2 token _ Hl2 Hc2
               (listener_un_eq token c')).
    apply dispatch_event_fired.
Qed.

Lemma one_shot_reply_witness :
  handle_message (loads_of echo_table) call_returns "reply" echo_client
    = (un "echo_ask_0" echo_client, [(1, JStr "hi-back")]) /\
  listener (un "echo_ask_0" echo_client) !! "echo_ask_0" = None.
Proof.
  pose proof (one_shot_reply (loads_of echo_table) call_returns "reply" "reply"
                _ _ "echo_ask_0" 1 echo_client echo_client
                eq_refl eq_refl eq_refl eq_refl) as H.
  assert (Hne : "echo_ask_0" ≠ "") by discriminate.
  specialize (H Hne eq_refl eq_refl).
  split; [exact (proj1 H) | exact (proj1 (proj2 H))].
Defined.

(** The claim C2 as stated fails: the second frame with the token is not
    dropped when its event has a listener; here it fires the listener of
    ["echo"]. *)
Lemma second_reply_fires_event_listener :
  (handle_message (loads_of echo_table) call_returns "reply" echo_client).2
    = [(1, JStr "hi-back")] /\
  listener echo_answered !! "echo_ask_0" = None /\
  (handle_message (loads_of echo_table) call_returns "reply" echo_answered).2
    = [(7, JStr "hi-back")] /\
  (handle_message (loads_of echo_table) call_returns "reply" echo_answered).2 ≠ [].
Proof. vm_compute. repeat split; try reflexivity. discriminate. Qed.

(** C9, as the code has it: a frame whose [callback] is a non-empty string
    that is a key of the registry invokes the entry under that key and,
    when the callback returns, removes it, however the key was registered;
    so a frame with [callback] set to an event name [E] unregisters the
    listener that [on] registered for [E]. *)
Theorem callback_frame_consumes_listener (json_loads : string -> option json)
    (call : handler -> json -> ClientSocket -> outcome)
    (message : string) (fields : list (string * json))
    (E : string) (h : handler) (c0 c' : ClientSocket) :
  json_loads message = Some (JObj fields) ->
  dict_get "callback" fields = JStr E ->
  E ≠ "" ->
  call h (dict_get "data" fields) (on E h c0) = Returned c' ->
  handle_message json_loads call message (on E h c0)
    = (un E c', [(h, dict_get "data" fields)]) /\
  listener (on E h c0) !! E = Some h /\
  listener (un E c') !! E = None.
Proof.
  intros Hl Hc Hne Hcall.
  assert (Hreg : listener (on E h c0) !! E = Some h) by apply lookup_insert_eq.
  split; [| split; [exact Hreg | apply listener_un_eq]].
  rewrite (handle_message_token_hit json_loads call message fields E h _ Hl Hc Hne Hreg).
  rewrite Hcall. reflexivity.
Qed.

Lemma callback_frame_consumes_listener_witness :
  handle_message (loads_of notify_table) call_returns "by-token"
      (on "notification" 5 init)
    = (un "notification" (on "notification" 5 init), [(5, JNum 1)]) /\
  listener (un "notification" (on "notification" 5 init)) !! "notification" = None.
Proof.
  pose proof (callback_frame_consumes_listener (loads_of notify_table) call_returns
                "by-token" _ "notification" 5 init (on "notification" 5 init)
                eq_refl eq_refl) as H.
  assert (Hne : "notification" ≠ "") by discriminate.
  specialize (H Hne eq_refl).
  split; [exact (proj1 H) | exact (proj2 (proj2 H))].
Defined.

(** The claim C9 as stated fails for the empty key, which [on] accepts: a
    frame with [callback] set to the empty string does not reach the entry
    registered under it (the token is tested for truth first), and the
    entry stays.  It also fails when the callback raises: the entry is
    invoked and stays. *)
Lemma empty_key_not_consumed :
  listener (on "" 5 init) !! "" = Some 5 /\
  (handle_message (loads_of notify_table) call_returns "empty-token"
     (on "" 5 init)).2 = [] /\
  listener (handle_message (loads_of notify_table) call_returns "empty-token"
              (on "" 5 init)).1 !! "" = Some 5.
Proof. vm_compute. repeat split; reflexivity. Qed.

Lemma raising_callback_not_consumed :
  (handle_message (loads_of notify_table) call_raises "by-token"
     (on "notification" 5 init)).2 = [(5, JNum 1)] /\
  listener (handle_message (loads_of notify_table) call_raises "by-token"
              (on "notification" 5 init)).1 !! "notification" = Some 5.
Proof. vm_compute. repeat split; reflexivity. Qed.

(** ** Starting twice *)

Lemma count_active_insert (l : list pc) (i : nat) (p q : pc) :
  l !! i = Some p ->
  count_active (<[i := q]> l) + (if is_active p then 1 else 0)
    = count_active l + (if is_active q then 1 else 0).
Proof.
  unfold count_active. revert i.
  induction l as [|x l IH]; intros i Hi; [discriminate |].
  destruct i as [|i]; simpl in *.
  - injection Hi as ->. destruct (is_active p), (is_active q); simpl; lia.
  - specialize (IH i Hi). destruct (is_active x); simpl; lia.
Qed.

Lemma count_active_snoc (l : list pc) (p : pc) :
  count_active (l ++ [p]) = count_active l + (if is_active p then 1 else 0).
Proof.
  unfold count_active. rewrite List.filter_app, List.length_app. simpl.
  destruct (is_active p); reflexivity.
Qed.

Lemma one_loop_set_pc (s : Sys) (i : nat) (p q : pc) :
  tasks s !! i = Some p ->
  is_active p = true ->
  (is_active q = true -> _running (client s) = true) ->
  one_loop s -> one_loop (set_pc i q s).
Proof.
  intros Hi Hp Hq [Hle Hzero]. unfold one_loop, active in *. simpl.
  pose proof (count_active_insert (tasks s) i p q Hi) as Hc.
  rewrite Hp in Hc.
  destruct (is_active q) eqn:Eq.
  - split; [lia |]. intros Hr. rewrite (Hq eq_refl) in Hr. discriminate.
  - split; lia.
Qed.

Lemma one_loop_end_of_attempt (s : Sys) (i : nat) (p : pc) :
  tasks s !! i = Some p ->
  is_active p = true ->
  one_loop s -> one_loop (end_of_attempt i s).
Proof.
  intros Hi Hp Hinv. unfold end_of_attempt. simpl.
  destruct (_running (client s)) eqn:Hr.
  - apply (one_loop_set_pc _ i p AwaitSleep); simpl; auto.
  - apply (one_loop_set_pc _ i p Done); simpl; auto; discriminate.
Qed.

Lemma one_loop_loop_head (s : Sys) (i : nat) (p : pc) :
  tasks s !! i = Some p ->
  is_active p = true ->
  one_loop s -> one_loop (loop_head i s).
Proof.
  intros Hi Hp Hinv. unfold loop_head.
  destruct (_running (client s)) eqn:Hr.
  - destruct (session (client s)) as [se|].
    + destruct (session_closed se).
      * apply (one_loop_end_of_attempt _ i p); auto.
      * apply (one_loop_set_pc _ i p AwaitConnect); simpl; auto.
    + apply (one_loop_end_of_attempt _ i p); auto.
  - apply (one_loop_set_pc _ i p Done); simpl; auto; discriminate.
Qed.

Lemma one_loop_connect (s : Sys) : one_loop s -> one_loop (connect s).
Proof.
  intros [Hle Hzero]. unfold connect.
  destruct (_running (client s)) eqn:Hr.
  { unfold one_loop, active, log in *. simpl.
    split; [exact Hle | rewrite Hr; discriminate]. }
  unfold loop_head. simpl.
  unfold one_loop, active, set_pc. simpl.
  rewrite insert_app_r_alt, Nat.sub_diag by reflexivity. simpl.
  rewrite (count_active_snoc (tasks s) AwaitConnect).
  specialize (Hzero eq_refl). unfold active in Hzero. rewrite Hzero.
  simpl. split; [lia | discriminate].
Qed.

Section Tasks.

Variable json_loads : string -> option json.
Variable call : handler -> json -> ClientSocket -> outcome.

(** No callback stops or starts the client. *)
Hypothesis call_keeps_running :
  forall h d c, _running (state_of (call h d c)) = _running c.

Lemma handle_message_running (message : string) (c : ClientSocket) :
  _running (handle_message json_loads call message c).1 = _running c.
Proof.
  assert (Hev : forall e d, _running (dispatch_event call e d c).1 = _running c).
  { intros e d. unfold dispatch_event.
    destruct (find_listener e (listener c)); simpl; auto. }
  unfold handle_message.
  destruct (json_loads message) as [[| | | | |fields]|]; try reflexivity.
  destruct (truthy (dict_get "callback" fields)); [| apply Hev].
  destruct (find_listener _ (listener c)) as [| |k h]; [reflexivity | apply Hev |].
  pose proof (call_keeps_running h (dict_get "data" fields) c) as Hk.
  destruct (call h (dict_get "data" fields) c); simpl in *; exact Hk.
Qed.

Lemma one_loop_step (e : event) (s : Sys) :
  is_close e = false -> one_loop s -> one_loop (step json_loads call e s).
Proof.
  intros Hnc Hinv. destruct e as [| |i w|i|i msg|i|i]; simpl.
  - apply one_loop_connect, Hinv.
  - discriminate.
  - destruct (tasks s !! i) as [[| | |]|] eqn:Hi; try exact Hinv.
    apply (one_loop_set_pc _ i AwaitConnect AwaitMessage); simpl; auto.
    intros _. destruct Hinv as [Hle Hzero].
    destruct (_running (client s)) eqn:Hr; [reflexivity |].
    specialize (Hzero eq_refl). unfold active in Hzero.
    pose proof (count_active_insert (tasks s) i AwaitConnect Done Hi) as Hc.
    simpl in Hc. lia.
  - destruct (tasks s !! i) as [[| | |]|] eqn:Hi; try exact Hinv.
    apply (one_loop_end_of_attempt _ i AwaitConnect); auto.
  - destruct (tasks s !! i) as [[| | |]|] eqn:Hi; try exact Hinv.
    destruct msg; try exact Hinv.
    + destruct Hinv as [Hle Hzero]. split; [exact Hle |].
      simpl. rewrite handle_message_running. exact Hzero.
    + apply (one_loop_end_of_attempt _ i AwaitMessage); auto.
    + apply (one_loop_end_of_attempt _ i AwaitMessage); auto.
  - destruct (tasks s !! i) as [[| | |]|] eqn:Hi; try exact Hinv.
    apply (one_loop_end_of_attempt _ i AwaitMessage); auto.
  - destruct (tasks s !! i) as [[| | |]|] eqn:Hi; try exact Hinv.
    apply (one_loop_loop_head _ i AwaitSleep); auto.
Qed.

Lemma one_loop_run (es : list event) (s : Sys) :
  forallb (fun e => negb (is_close e)) es = true ->
  one_loop s -> one_loop (run json_loads call es s).
Proof.
  revert s. induction es as [|e es IH]; intros s Hes Hinv; [exact Hinv |].
  simpl in Hes. apply andb_prop in Hes as [He Hes].
  simpl. apply IH; [exact Hes |].
  apply one_loop_step; [| exact Hinv].
  destruct (is_close e); [discriminate | reflexivity].
Qed.

End Tasks.

(** X25: what the guard of [connect()] does achieve.  [connect()] on a
    client that is running only logs: the client, its session and transport
    and the set of tasks are as before, and no handshake is started.  Hence,
    in every run from a new client in which [close()] is not called (nor
    [_running] changed by a callback), at most one loop is active, before
    and after any further call of [connect()]. *)
Theorem connect_while_running_only_logs (json_loads : string -> option json)
    (call : handler -> json -> ClientSocket -> outcome)
    (es : list event) (c : ClientSocket) (ts : list pc) (efs : list effect) :
  (forall h d c, _running (state_of (call h d c)) = _running c) ->
  forallb (fun e => negb (is_close e)) es = true ->
  connect {| client := set_running true c; tasks := ts; effects := efs |}
    = {| client := set_running true c; tasks := ts;
         effects := efs ++ [LogIgnored] |} /\
  active (run json_loads call es init_sys) <= 1 /\
  active (connect (run json_loads call es init_sys)) <= 1.
Proof.
  intros Hcall Hes.
  assert (Hinit : one_loop init_sys) by (split; [cbv; lia | reflexivity]).
  pose proof (one_loop_run json_loads call Hcall es init_sys Hes Hinit) as Hrun.
  split; [reflexivity |]. split; [apply Hrun |].
  apply (one_loop_connect _ Hrun).
Qed.

Lemma connect_while_running_only_logs_witness :
  active (run (loads_of []) call_returns
            [CallConnect; ConnectOk 0 (fresh_ws []); CallConnect;
             Recv 0 (TEXT "x"); StreamEnd 0; CallConnect; Wake 0; CallConnect]
            init_sys) <= 1.
Proof.
  refine (proj1 (proj2 (connect_while_running_only_logs (loads_of []) call_returns
            [CallConnect; ConnectOk 0 (fresh_ws []); CallConnect;
             Recv 0 (TEXT "x"); StreamEnd 0; CallConnect; Wake 0; CallConnect]
            init [] [] _ _))).
  - intros h d c. reflexivity.
  - reflexivity.
Defined.

(** C8: the guard of [connect()] does not keep a client to one loop.  The
    guard and the condition of the [while] test the flag [_running], not
    whether a loop is alive: a loop that sleeps between two attempts
    outlives a [close()], which only clears the flag; a [connect()] made
    before it wakes finds the flag clear, starts a second loop and sets the
    flag again, so that the first loop goes on when it wakes.  After both
    handshakes the client has two loops that receive at the same time. *)
Lemma close_then_connect_two_loops :
  tasks closed_while_asleep = [AwaitSleep] /\
  _running (client closed_while_asleep) = false /\
  tasks connected_again = [AwaitMessage; AwaitMessage] /\
  active connected_again = 2 /\
  ~ active connected_again <= 1.
Proof. vm_compute. repeat split; try reflexivity. lia. Qed.

End ClientProps.

(** * Properties of the server *)

Module ServerProps.
Import Server.

Lemma dict_lookup_set_eq {V : Type} (k : string) (v : V) (d : list (string * V)) :
  dict_lookup k (dict_set k v d) = Some v.
Proof.
  induction d as [|[k' v'] d IH]; simpl.
  - rewrite String.eqb_refl. reflexivity.
  - destruct (String.eqb k' k) eqn:E; simpl.
    + rewrite String.eqb_refl. reflexivity.
    + rewrite E. exact IH.
Qed.

Lemma dict_lookup_set_ne {V : Type} (k k' : string) (v : V) (d : list (string * V)) :
  k ≠ k' -> dict_lookup k' (dict_set k v d) = dict_lookup k' d.
Proof.
  intros Hne. induction d as [|[k0 v0] d IH]; simpl.
  - destruct (String.eqb_spec k k'); [contradiction | reflexivity].
  - destruct (String.eqb_spec k0 k) as [->|Hk]; simpl.
    + destruct (String.eqb_spec k k'); [contradiction | reflexivity].
    + destruct (String.eqb k0 k'); [reflexivity | exact IH].
Qed.

Lemma dict_lookup_pop_eq {V : Type} (k : string) (d : list (string * V)) :
  dict_lookup k (dict_pop k d) = None.
Proof.
  induction d as [|[k' v'] d IH]; simpl; [reflexivity |].
  destruct (String.eqb k' k) eqn:E; simpl; [exact IH |].
  rewrite E. exact IH.
Qed.

Lemma bind_ok {A B : Type} (m : M A) (k : A -> M B) (env env' : Env) (a : A) :
  m env = (Ok a, env') -> bind m k env = k a env'.
Proof. intros H. unfold bind. rewrite H. reflexivity. Qed.

Lemma bind_err {A B : Type} (m : M A) (k : A -> M B) (env env' : Env) (e : exn) :
  m env = (Err e, env') -> bind m k env = (Err e, env').
Proof. intros H. unfold bind. rewrite H. reflexivity. Qed.

Lemma try_except_ok {A : Type} (m : M A) (h : exn -> M A) (env env' : Env) (a : A) :
  m env = (Ok a, env') -> try_except m h env = (Ok a, env').
Proof. intros H. unfold try_except. rewrite H. reflexivity. Qed.

(** A send on a transport that is open and not about to fail goes
    through. *)
Lemma ws_send_json_ok (a : nat) (frame : json) (w : WebSocket) (env : Env) :
  heap env !! a = Some w ->
  sendable w = true ->
  ws_send_json a frame env =
    (Ok tt,
     set_heap (<[a := {| closed := false; faults := tail (faults w);
                         sent := sent w ++ [frame] |}]> (heap env)) env).
Proof.
  intros Hw Hs. unfold ws_send_json, send_json. rewrite Hw.
  unfold sendable in Hs. destruct (closed w); [discriminate |].
  destruct (faults w) as [|[|] rest]; [reflexivity | discriminate | reflexivity].
Qed.

(** ** Reply and return *)

(** C3, as the code has it: on a frame with a non-empty callback token, a
    handler that calls the reply capability with [X] and returns a
    non-empty [Y] makes [todo] send exactly two frames on the connection
    (whose transport is open and accepts them): the event with [X] and
    the token, then the event with [Y] and no [callback] field. *)
Theorem todo_reply_then_return (event_handler : json -> option Handler)
    (io : IO) (fields : list (string * json)) (handler : Handler)
    (X Y : json) (w : WebSocket) (env : Env) :
  let event := dict_get "event" fields in
  let data := dict_get "data" fields in
  let token := dict_get "callback" fields in
  truthy token = true ->
  truthy Y = true ->
  resolve event_handler event handler event data true = ([Reply X], Return Y) ->
  heap env !! ws io = Some w ->
  closed w = false ->
  forallb negb (take 2 (faults w)) = true ->
  let out := todo event_handler io (JObj fields) handler env in
  out.1 = Ok tt /\
  heap out.2 !! ws io =
    Some {| closed := false; faults := drop 2 (faults w);
            sent := sent w ++
                    [JObj [("event", event); ("data", X); ("callback", token)];
                     JObj [("event", event); ("data", Y)]] |} /\
  (forall a, a ≠ ws io -> heap out.2 !! a = heap env !! a) /\
  _socket_clients out.2 = _socket_clients env.
Proof.
  intros event data token Htok HY Hres Hw Hopen Hfaults.
  set (f1 := JObj [("event", event); ("data", X); ("callback", token)]).
  set (f2 := JObj [("event", event); ("data", Y)]).
  set (env1 := set_request
                 (dict_set "callback" token (dict_set "event" event (request env)))
                 env).
  set (w1 := {| closed := false; faults := tail (faults w); sent := sent w ++ [f1] |}).
  set (env2 := set_heap (<[ws io := w1]> (heap env1)) env1).
  set (w2 := {| closed := false; faults := tail (faults w1); sent := sent w1 ++ [f2] |}).
  set (env3 := set_heap (<[ws io := w2]> (heap env2)) env2).
  assert (Hs : sendable w = true /\ sendable w1 = true).
  { unfold sendable, w1. rewrite Hopen. simpl.
    destruct (faults w) as [|[|] [|[|] rest]]; simpl in *; auto; discriminate. }
  destruct Hs as [Hs Hs1].
  assert (Hstore : (request_set "event" event ;; request_set "callback" token) env
                   = (Ok tt, env1)) by reflexivity.
  assert (Hask : ask X io env1 = (Ok tt, env2)).
  { unfold ask.
    rewrite (bind_ok (ws_closed (ws io)) _ env1 env1 false)
      by (unfold ws_closed; simpl; rewrite Hw, Hopen; reflexivity).
    rewrite (bind_ok (request_get "event") _ env1 env1 event).
    2:{ unfold request_get. simpl.
        rewrite (dict_lookup_set_ne "callback" "event") by discriminate.
        rewrite dict_lookup_set_eq. reflexivity. }
    rewrite (bind_ok (request_get "callback") _ env1 env1 token).
    2:{ unfold request_get. simpl. rewrite dict_lookup_set_eq. reflexivity. }
    apply (ws_send_json_ok (ws io) f1 w env1 Hw Hs). }
  assert (Hemit : io_emit io event Y env2 = (Ok tt, env3)).
  { unfold io_emit.
    apply (ws_send_json_ok (ws io) f2 w1 env2); [| exact Hs1].
    simpl. apply lookup_insert_eq. }
  assert (Hall : todo event_handler io (JObj fields) handler env = (Ok tt, env3)).
  { unfold todo. fold event data token. rewrite Htok, Hres.
    rewrite (bind_ok _ _ env env1 tt Hstore).
    apply try_except_ok. simpl perform.
    rewrite (bind_ok _ _ env1 env2 tt)
      by (rewrite (bind_ok _ _ env1 env2 tt Hask); reflexivity).
    rewrite HY. exact Hemit. }
  intros out. subst out. rewrite Hall. simpl.
  repeat split.
  - rewrite lookup_insert_eq. unfold w2, w1. simpl. rewrite <- app_assoc. simpl.
    f_equal. f_equal. destruct (faults w) as [|b1 [|b2 rest]]; reflexivity.
  - intros a Ha. rewrite !lookup_insert_ne by congruence. reflexivity.
Qed.

Lemma todo_reply_then_return_witness :
  (todo no_event_handler echo_io (JObj echo_fields)
     (reply_and_return (JStr "hi-back") (JStr "done")) one_connection).1 = Ok tt /\
  heap (todo no_event_handler echo_io (JObj echo_fields)
          (reply_and_return (JStr "hi-back") (JStr "done")) one_connection).2 !! 0 =
    Some {| closed := false; faults := [];
            sent := [JObj [("event", JStr "echo"); ("data", JStr "hi-back");
                           ("callback", JStr "echo_ask_0")];
                     JObj [("event", JStr "echo"); ("data", JStr "done")]] |}.
Proof.
  pose proof (todo_reply_then_return no_event_handler echo_io
                echo_fields (reply_and_return (JStr "hi-back") (JStr "done"))
                (JStr "hi-back") (JStr "done") (fresh_ws []) one_connection
                eq_refl eq_refl eq_refl eq_refl eq_refl eq_refl) as H.
  split; [exact (proj1 H) | exact (proj1 (proj2 H))].
Defined.

(** The claim C3 as stated fails for a returned value that Python takes for
    false: the handler replies ["hi-back"] and returns [0], and the reply
    is the only frame sent. *)
Lemma falsy_return_sends_one_frame :
  (todo no_event_handler echo_io (JObj echo_fields)
     (reply_and_return (JStr "hi-back") (JNum 0)) one_connection).1 = Ok tt /\
  sent <$> heap (todo no_event_handler echo_io (JObj echo_fields)
                   (reply_and_return (JStr "hi-back") (JNum 0)) one_connection).2 !! 0 =
    Some [JObj [("event", JStr "echo"); ("data", JStr "hi-back");
                ("callback", JStr "echo_ask_0")]].
Proof. vm_compute. split; reflexivity. Qed.

(** ** Cleanup at the end of the receive loop *)

Lemma keeps_ret (a : nat) {A : Type} (x : A) : keeps a (ret x).
Proof. intros env H. exact H. Qed.

Lemma keeps_raise (a : nat) {A : Type} (e : exn) : keeps a (@raise A e).
Proof. intros env H. exact H. Qed.

Lemma keeps_bind (a : nat) {A B : Type} (m : M A) (k : A -> M B) :
  keeps a m -> (forall x, keeps a (k x)) -> keeps a (bind m k).
Proof.
  intros Hm Hk env H. unfold bind. specialize (Hm env H).
  destruct (m env) as [[x|e] env']; simpl in *; [apply Hk, Hm | exact Hm].
Qed.

Lemma keeps_try_except (a : nat) {A : Type} (m : M A) (h : exn -> M A) :
  keeps a m -> (forall e, keeps a (h e)) -> keeps a (try_except m h).
Proof.
  intros Hm Hh env H. unfold try_except. specialize (Hm env H).
  destruct (m env) as [[x|e] env']; simpl in *; [exact Hm | apply Hh, Hm].
Qed.

Lemma keeps_ws_closed (a b : nat) : keeps a (ws_closed b).
Proof.
  intros env H. unfold ws_closed. destruct (heap env !! b); exact H.
Qed.

Lemma keeps_ws_send_json (a b : nat) (frame : json) :
  keeps a (ws_send_json b frame).
Proof.
  intros env H. unfold ws_send_json.
  destruct (heap env !! b) as [w|] eqn:Hb; [| exact H].
  destruct (send_json frame w) as [ok w'].
  assert (Hins : is_Some (<[b := w']> (heap env) !! a)).
  { destruct (decide (b = a)) as [->|Hne].
    - rewrite lookup_insert_eq. eauto.
    - rewrite lookup_insert_ne by exact Hne. exact H. }
  destruct ok; exact Hins.
Qed.

Lemma keeps_ws_close_at (a b : nat) : keeps a (ws_close_at b).
Proof.
  intros env H. unfold ws_close_at.
  destruct (heap env !! b) as [w|] eqn:Hb; [| exact H]. simpl.
  destruct (decide (b = a)) as [->|Hne].
  - rewrite lookup_insert_eq. eauto.
  - rewrite lookup_insert_ne by exact Hne. exact H.
Qed.

Lemma keeps_io_emit (a : nat) (io : IO) (event data : json) :
  keeps a (io_emit io event data).
Proof. apply keeps_ws_send_json. Qed.

Lemma keeps_io_close (a : nat) (io : IO) : keeps a (io_close io).
Proof.
  apply keeps_bind; [apply keeps_ws_closed |].
  intros [|]; [apply keeps_ret | apply keeps_ws_close_at].
Qed.

Lemma keeps_request_get (a : nat) (key : string) : keeps a (request_get key).
Proof.
  intros env H. unfold request_get.
  destruct (dict_lookup key (request env)); exact H.
Qed.

Lemma keeps_request_set (a : nat) (key : string) (v : json) :
  keeps a (request_set key v).
Proof. intros env H. exact H. Qed.

Lemma keeps_ask (a : nat) (data : json) (io : IO) : keeps a (ask data io).
Proof.
  apply keeps_bind; [apply keeps_ws_closed |].
  intros [|]; [apply keeps_ret |].
  apply keeps_bind; [apply keeps_request_get | intros event].
  apply keeps_bind; [apply keeps_request_get | intros callback].
  apply keeps_ws_send_json.
Qed.

Lemma keeps_perform (a : nat) (io : IO) (has_callback : bool) (acts : list action) :
  keeps a (perform io has_callback acts).
Proof.
  induction acts as [|[value|event data|] acts IH]; simpl.
  - apply keeps_ret.
  - apply keeps_bind; [| intros _; exact IH].
    destruct has_callback; [apply keeps_ask | apply keeps_raise].
  - apply keeps_bind; [apply keeps_io_emit | intros _; exact IH].
  - apply keeps_bind; [apply keeps_io_close | intros _; exact IH].
Qed.

Section Loop.

Variable json_loads : string -> option json.
Variable event_handler : json -> option Handler.

Lemma keeps_todo (a : nat) (io : IO) (payload : json) (handler : Handler) :
  keeps a (todo event_handler io payload handler).
Proof.
  destruct payload as [| | | | |fields]; try apply keeps_raise.
  unfold todo. apply keeps_bind.
  - destruct (truthy (dict_get "callback" fields)); [| apply keeps_ret].
    apply keeps_bind; [apply keeps_request_set | intros _; apply keeps_request_set].
  - intros _. apply keeps_try_except; [| intros e; apply keeps_io_emit].
    destruct (resolve event_handler _ handler _ _ _) as [acts fin].
    apply keeps_bind; [apply keeps_perform | intros _].
    destruct fin as [value|message]; [| apply keeps_raise].
    destruct (truthy value); [apply keeps_io_emit | apply keeps_ret].
Qed.

Lemma keeps_loop_body (a : nat) (io : IO) (handler : Handler) (msg : WSMsg) :
  keeps a (loop_body json_loads event_handler io handler msg).
Proof.
  destruct msg as [data| | | |]; try apply keeps_ret.
  apply keeps_try_except.
  - destruct (json_loads data); [apply keeps_todo | apply keeps_raise].
  - intros [|message]; apply keeps_io_emit.
Qed.

Lemma keeps_receive_loop (a : nat) (io : IO) (handler : Handler)
    (inbound : list WSMsg) (stop : stream_end) :
  keeps a (receive_loop json_loads event_handler io handler inbound stop).
Proof.
  induction inbound as [|msg rest IH]; simpl.
  - destruct stop; [apply keeps_io_close | apply keeps_ret | apply keeps_raise].
  - apply keeps_bind; [apply keeps_ws_closed |].
    intros [|]; [apply keeps_ret |].
    apply keeps_bind; [apply keeps_loop_body | intros _; exact IH].
Qed.

(** C5: whatever ends the receive loop of a connection (the stream ends
    with the transport closed or closing, the receive raises, or an
    exception leaves the body of the loop), when [init_websocket] is left
    the id of the connection is not in the registry and its transport is
    closed. *)
Theorem cleanup_when_loop_ends (_id : string) (script : list bool)
    (inbound : list WSMsg) (stop : stream_end) (handler : Handler) (env : Env) :
  let a := fresh (dom (heap env)) in
  let out := init_websocket json_loads event_handler _id true script
               inbound stop handler env in
  dict_lookup _id (_socket_clients out.2) = None /\
  closed <$> heap out.2 !! a = Some true /\
  (out.1 = Ok (WebSocketResponse a) \/ exists e, out.1 = Err e).
Proof.
  intros a out.
  assert (Hout : exists (r : result unit) (env4 : Env),
             out = (match r with
                    | Ok _ => Ok (WebSocketResponse a)
                    | Err e => Err e
                    end, env4) /\
             dict_lookup _id (_socket_clients env4) = None /\
             closed <$> heap env4 !! a = Some true).
  { subst out. unfold init_websocket.
    rewrite (bind_ok (new_ws script) _ env
               (set_heap (<[a := fresh_ws script]> (heap env)) env) a) by reflexivity.
    set (env1 := set_heap (<[a := fresh_ws script]> (heap env)) env).
    set (io := {| ws := a; _id := _id |}).
    set (env2 := set_clients (dict_set _id io (_socket_clients env1)) env1).
    rewrite (bind_ok _ _ env1 env2 tt) by reflexivity.
    change (negb true) with false. cbv iota.
    assert (H2 : is_Some (heap env2 !! a)).
    { simpl. rewrite lookup_insert_eq. eauto. }
    pose proof (keeps_receive_loop a io handler inbound stop env2 H2) as H3.
    unfold bind, try_finally, io_close, bind, ws_closed, ret, modify. cbv beta.
    destruct (receive_loop json_loads event_handler io handler inbound stop env2)
      as [r env3].
    simpl in H3. destruct H3 as [w3 Hw3]. simpl ws. rewrite Hw3.
    destruct (closed w3) eqn:Hc3.
    - exists r, (set_clients (dict_pop _id (_socket_clients env3)) env3).
      split; [destruct r as [[]|e]; reflexivity |].
      simpl. rewrite dict_lookup_pop_eq, Hw3. simpl. rewrite Hc3. auto.
    - unfold ws_close_at. change (ws io) with a. rewrite Hw3.
      eexists r, _. split; [destruct r as [[]|e]; reflexivity |].
      simpl. rewrite dict_lookup_pop_eq, lookup_insert_eq. auto. }
  destruct Hout as (r & env4 & -> & Hreg & Hclosed). simpl.
  split; [exact Hreg |]. split; [exact Hclosed |].
  destruct r as [[]|e]; eauto.
Qed.

End Loop.

(** The path of an exception that leaves the body of the loop: the text is
    not JSON and the send of the error frame raises.  The exception leaves
    [init_websocket] after the cleanup. *)
Example cleanup_after_escaping_exception :
  let out := init_websocket no_loads no_event_handler "7" true [true]
               [TEXT "not json"; TEXT "never read"] EndClosing
               (reply_and_return JNull JNull) one_connection in
  out.1 = Err (Exception "Cannot write to closing transport") /\
  _socket_clients out.2 = [("42", {| ws := 0; _id := "42" |})] /\
  heap out.2 !! 1 = Some {| closed := true; faults := []; sent := [] |}.
Proof. vm_compute. repeat split; reflexivity. Qed.

(** ** Broadcast *)

Lemma io_emit_ready (io : IO) (event data : json) (env : Env) :
  ready env io = true ->
  exists w w',
    heap env !! ws io = Some w /\
    sent w' = (sent w ++ [JObj [("event", event); ("data", data)]])%list /\
    io_emit io event data env
      = (Ok tt, set_heap (<[ws io := w']> (heap env)) env).
Proof.
  unfold ready, io_emit, ws_send_json, send_json, sendable.
  destruct (heap env !! ws io) as [w|]; [| discriminate].
  destruct (closed w); [discriminate |].
  destruct (faults w) as [|[|] rest]; simpl; try discriminate;
    intros _; eexists w, _; (split; [reflexivity | split; [| reflexivity]]);
    reflexivity.
Qed.

Lemma io_emit_not_ready (io : IO) (event data : json) (env : Env) :
  ready env io = false ->
  exists e env',
    io_emit io event data env = (Err e, env') /\
    (forall a, a ≠ ws io -> heap env' !! a = heap env !! a).
Proof.
  unfold ready, io_emit, ws_send_json, send_json, sendable.
  destruct (heap env !! ws io) as [w|]; [| intros _; eauto].
  destruct (closed w).
  - intros _. eexists _, _. split; [reflexivity |].
    intros a Ha. simpl. apply lookup_insert_ne. congruence.
  - destruct (faults w) as [|[|] rest]; simpl; try discriminate.
    intros _. eexists _, _. split; [reflexivity |].
    intros a Ha. simpl. apply lookup_insert_ne. congruence.
Qed.

(** Sending to a run of ready connections delivers to each of them and
    goes on with what follows. *)
Lemma emit_all_ready_prefix (pre : list IO) (event data : json) (env : Env) :
  NoDup (ws <$> pre) ->
  Forall (fun io => ready env io = true) pre ->
  exists env1,
    (forall rest, emit_all (pre ++ rest) event data env
                  = emit_all rest event data env1) /\
    Forall (received (JObj [("event", event); ("data", data)]) env env1) pre /\
    (forall a, a ∉ ws <$> pre -> heap env1 !! a = heap env !! a).
Proof.
  revert env. induction pre as [|io pre IH]; intros env Hnd Hready.
  - exists env. split; [reflexivity |]. split; [constructor | reflexivity].
  - rewrite fmap_cons in Hnd. apply NoDup_cons in Hnd as [Hnotin Hnd].
    apply Forall_cons in Hready as [Hio Hpre].
    destruct (io_emit_ready io event data env Hio) as (w & w' & Hw & Hsent & Hemit).
    set (env0 := set_heap (<[ws io := w']> (heap env)) env) in *.
    assert (Hpre0 : Forall (fun io' => ready env0 io' = true) pre).
    { rewrite Forall_forall in Hpre. apply Forall_forall. intros io' Hin.
      specialize (Hpre io' Hin). unfold ready in *. simpl.
      rewrite lookup_insert_ne; [exact Hpre |].
      intros Heq. apply Hnotin. rewrite Heq. apply list_elem_of_fmap_2, Hin. }
    destruct (IH env0 Hnd Hpre0) as (env1 & Hrest & Hrecv & Hother).
    exists env1. split; [| split].
    + intros rest. simpl. rewrite (bind_ok _ _ env env0 tt Hemit). apply Hrest.
    + constructor.
      * unfold received. rewrite (Hother _ Hnotin). simpl.
        rewrite lookup_insert_eq, Hw. simpl. rewrite Hsent. reflexivity.
      * rewrite Forall_forall in Hrecv. apply Forall_forall. intros io' Hin.
        specialize (Hrecv io' Hin). unfold received in *. rewrite Hrecv. simpl.
        rewrite lookup_insert_ne; [reflexivity |].
        intros Heq. apply Hnotin. rewrite Heq. apply list_elem_of_fmap_2, Hin.
    + intros a Ha. rewrite fmap_cons in Ha. apply not_elem_of_cons in Ha as [Hne Ha].
      rewrite (Hother a Ha). simpl. apply lookup_insert_ne. congruence.
Qed.

(** C4, as the code has it: [broadcast] sends to the matching connections
    in the order of the registry.  When every send goes through, each of
    them gets the frame.  When the send to one of them raises, the ones
    before it have got the frame, the exception leaves [broadcast], and the
    ones after it are not sent anything. *)
Theorem broadcast_until_first_failure (event : string) (data : json)
    (filter : option (IO -> bool)) (env : Env) :
  let frame := JObj [("event", JStr event); ("data", data)] in
  NoDup (ws <$> targets filter env) ->
  (Forall (fun io => ready env io = true) (targets filter env) ->
   exists env',
     broadcast event data filter env = (Ok tt, env') /\
     Forall (received frame env env') (targets filter env)) /\
  (forall pre bad post,
     targets filter env = pre ++ bad :: post ->
     Forall (fun io => ready env io = true) pre ->
     ready env bad = false ->
     exists e env',
       broadcast event data filter env = (Err e, env') /\
       Forall (received frame env env') pre /\
       Forall (untouched env env') post).
Proof.
  intros frame Hnd. split.
  - intros Hready.
    destruct (emit_all_ready_prefix _ (JStr event) data env Hnd Hready)
      as (env1 & Hrest & Hrecv & _).
    exists env1. split; [| exact Hrecv].
    unfold broadcast. rewrite (bind_ok _ _ env env (targets filter env)) by reflexivity.
    specialize (Hrest []). rewrite app_nil_r in Hrest. rewrite Hrest. reflexivity.
  - intros pre bad post Hsplit Hpre Hbad.
    rewrite Hsplit in Hnd. rewrite fmap_app, fmap_cons in Hnd.
    apply NoDup_app in Hnd as (Hnd_pre & Hdisj & Hnd_rest).
    apply NoDup_cons in Hnd_rest as [Hbad_post _].
    destruct (emit_all_ready_prefix pre (JStr event) data env Hnd_pre Hpre)
      as (env1 & Hrest & Hrecv & Hother).
    assert (Hbad_pre : ws bad ∉ ws <$> pre).
    { intros Hin. apply (Hdisj _ Hin). left. }
    assert (Hbad1 : ready env1 bad = false).
    { unfold ready in *. rewrite (Hother _ Hbad_pre). exact Hbad. }
    destruct (io_emit_not_ready bad (JStr event) data env1 Hbad1)
      as (e & env' & Hemit & Hkeep).
    exists e, env'. split; [| split].
    + unfold broadcast. rewrite (bind_ok _ _ env env (targets filter env)) by reflexivity.
      rewrite Hsplit, Hrest. simpl. apply (bind_err _ _ env1 env' e Hemit).
    + rewrite Forall_forall in Hrecv. apply Forall_forall. intros io Hin.
      specialize (Hrecv io Hin). unfold received, frame in *. rewrite <- Hrecv.
      f_equal. apply Hkeep. intros Heq. apply Hbad_pre. rewrite <- Heq.
      apply list_elem_of_fmap_2, Hin.
    + apply Forall_forall. intros io Hin. unfold untouched.
      assert (Hio : ws io ≠ ws bad).
      { intros Heq. apply Hbad_post. rewrite <- Heq. apply list_elem_of_fmap_2, Hin. }
      rewrite (Hkeep _ Hio). apply Hother.
      intros Hin_pre. apply (Hdisj _ Hin_pre). right.
      apply list_elem_of_fmap_2, Hin.
Qed.

Lemma broadcast_until_first_failure_witness :
  exists e env',
    broadcast "news" (JStr "hello") None three_connections = (Err e, env') /\
    Forall (received (JObj [("event", JStr "news"); ("data", JStr "hello")])
              three_connections env')
           [{| ws := 0; _id := "a" |}] /\
    Forall (untouched three_connections env') [{| ws := 2; _id := "c" |}].
Proof.
  assert (Hnd : NoDup (ws <$> targets None three_connections)).
  { apply (bool_decide_unpack _). reflexivity. }
  apply (proj2 (broadcast_until_first_failure "news" (JStr "hello") None
                  three_connections Hnd)
           [{| ws := 0; _id := "a" |}] {| ws := 1; _id := "b" |}
           [{| ws := 2; _id := "c" |}]).
  - reflexivity.
  - repeat constructor.
  - reflexivity.
Defined.

(** The claim C4 as stated fails: with no filter all three connections
    match; the send to the second one raises, the exception leaves
    [broadcast], and the third one, whose transport would take the frame,
    is sent nothing. *)
Lemma broadcast_stops_at_failure :
  targets None three_connections
    = [{| ws := 0; _id := "a" |}; {| ws := 1; _id := "b" |};
       {| ws := 2; _id := "c" |}] /\
  (broadcast "news" (JStr "hello") None three_connections).1
    = Err (Exception "Cannot write to closing transport") /\
  ready three_connections {| ws := 2; _id := "c" |} = true /\
  sent <$> heap (broadcast "news" (JStr "hello") None three_connections).2 !! 0
    = Some [JObj [("event", JStr "news"); ("data", JStr "hello")]] /\
  sent <$> heap (broadcast "news" (JStr "hello") None three_connections).2 !! 2
    = Some [].
Proof. vm_compute. repeat split; reflexivity. Qed.

(** ** A request that is not a websocket request *)

(** The connection is put in the registry before the request is checked:
    a request that cannot be prepared gets the 400 response and leaves its
    id bound to the connection object made for it. *)
Lemma failed_upgrade_registers_first (json_loads : string -> option json)
    (event_handler : json -> option Handler) (_id : string)
    (script : list bool) (inbound : list WSMsg) (stop : stream_end)
    (handler : Handler) (env : Env) :
  let a := fresh (dom (heap env)) in
  let out := init_websocket json_loads event_handler _id false script
               inbound stop handler env in
  out.1 = Ok (JsonResponse 400 (JObj [("error", JStr "Not a WebSocket request")])) /\
  _socket_clients out.2
    = dict_set _id {| ws := a; _id := _id |} (_socket_clients env) /\
  dict_lookup _id (_socket_clients out.2) = Some {| ws := a; _id := _id |}.
Proof.
  intros a out. subst out. unfold init_websocket.
  rewrite (bind_ok (new_ws script) _ env
             (set_heap (<[a := fresh_ws script]> (heap env)) env) a) by reflexivity.
  simpl. split; [reflexivity |]. split; [reflexivity |].
  apply dict_lookup_set_eq.
Qed.

Lemma dict_set_absent {V : Type} (k : string) (v : V) (d : list (string * V)) :
  dict_lookup k d = None -> dict_set k v d = d ++ [(k, v)].
Proof.
  induction d as [|[k' v'] d IH]; simpl; [reflexivity |].
  destruct (String.eqb k' k); [discriminate |].
  intros H. rewrite (IH H). reflexivity.
Qed.

Lemma filter_other_transports (a : nat) (d : list (string * IO)) :
  Forall (fun entry => ws entry.2 ≠ a) d ->
  List.filter (fun entry => negb (Nat.eqb (ws entry.2) a)) d = d.
Proof.
  induction 1 as [|[k io] d Hne _ IH]; simpl in *; [reflexivity |].
  destruct (Nat.eqb_spec (ws io) a); [contradiction |].
  simpl. rewrite IH. reflexivity.
Qed.

(** With an id that is not in use, the entry of the failed request is the
    only trace it leaves, and it goes when the object is reclaimed. *)
Lemma failed_upgrade_fresh_id_reclaimed (json_loads : string -> option json)
    (event_handler : json -> option Handler) (_id : string)
    (script : list bool) (inbound : list WSMsg) (stop : stream_end)
    (handler : Handler) (env : Env) :
  dict_lookup _id (_socket_clients env) = None ->
  Forall (fun entry => is_Some (heap env !! ws entry.2)) (_socket_clients env) ->
  let a := fresh (dom (heap env)) in
  let out := init_websocket json_loads event_handler _id false script
               inbound stop handler env in
  _socket_clients (reclaim a out.2) = _socket_clients env /\
  heap (reclaim a out.2) = heap env.
Proof.
  intros Hfree Hwf a out.
  assert (Ha : heap env !! a = None).
  { apply not_elem_of_dom. apply is_fresh. }
  destruct (failed_upgrade_registers_first json_loads event_handler _id script
              inbound stop handler env) as (_ & Hreg & _).
  fold a in Hreg. fold out in Hreg.
  assert (Hheap : heap out.2 = <[a := fresh_ws script]> (heap env)).
  { subst out. unfold init_websocket.
    rewrite (bind_ok (new_ws script) _ env
               (set_heap (<[a := fresh_ws script]> (heap env)) env) a) by reflexivity.
    reflexivity. }
  unfold reclaim. cbn [_socket_clients heap]. rewrite Hreg, Hheap. split.
  - rewrite (dict_set_absent _ _ _ Hfree), List.filter_app. simpl.
    rewrite Nat.eqb_refl. simpl. rewrite app_nil_r.
    apply filter_other_transports.
    eapply Forall_impl; [exact Hwf |].
    intros [k io] [w Hw] Heq. simpl in *. rewrite Heq, Ha in Hw. discriminate.
  - rewrite delete_insert_eq. apply delete_id. exact Ha.
Qed.

(** C6: a request that fails the check changes the registry when its id is
    that of a live connection.  Connection ["42"] is registered and open; a
    request with the id ["42"] that is not a websocket request gets the 400
    response, after which ["42"] is bound to the object made for the
    failed request, and to nothing once that object is reclaimed, while
    the live connection is still open. *)
Theorem failed_upgrade_replaces_live_connection :
  dict_lookup "42" (_socket_clients one_connection) = Some {| ws := 0; _id := "42" |} /\
  failed_upgrade.1
    = Ok (JsonResponse 400 (JObj [("error", JStr "Not a WebSocket request")])) /\
  dict_lookup "42" (_socket_clients failed_upgrade.2) = Some {| ws := 1; _id := "42" |} /\
  dict_lookup "42" (_socket_clients (reclaim 1 failed_upgrade.2)) = None /\
  closed <$> heap (reclaim 1 failed_upgrade.2) !! 0 = Some false.
Proof. vm_compute. repeat split; reflexivity. Qed.

End ServerProps.

(** * More properties of the client *)

Module ClientMoreProps.
Import Client ClientMore.

Section Dispatch.

Variable json_loads : string -> option json.
Variable call : handler -> json -> ClientSocket -> outcome.


(** X1: a message that is not JSON, or is JSON but not an object, or names
    neither a registered callback nor a registered event, is dropped: no
    callback is invoked and the client is as before. *)
Theorem unmatched_message_dropped (message : string) (c : ClientSocket) :
  json_loads message = None \/
  (exists v, json_loads message = Some v /\ forall fields, v ≠ JObj fields) \/
  (exists fields,
     json_loads message = Some (JObj fields) /\
     (truthy (dict_get "callback" fields) = false \/
      find_listener (dict_get "callback" fields) (listener c) = Absent) /\
     forall k h, find_listener (dict_get "event" fields) (listener c) ≠ Present k h) ->
  handle_message json_loads call message c = (c, []).
Proof.
  intros [Hnone | [(v & Hv & Hno) | (fields & Hl & Hcb & Hev)]];
    unfold handle_message.
  - rewrite Hnone. reflexivity.
  - rewrite Hv. destruct v; try reflexivity. destruct (Hno fields). reflexivity.
  - rewrite Hl.
    assert (Hd : dispatch_event call (dict_get "event" fields)
                   (dict_get "data" fields) c = (c, [])).
    { unfold dispatch_event.
      destruct (find_listener (dict_get "event" fields) (listener c)) as [| |k h] eqn:E;
        [reflexivity | reflexivity | destruct (Hev k h eq_refl)]. }
    destruct Hcb as [Hcb | Hcb]; [rewrite Hcb; exact Hd |].
    rewrite Hcb. destruct (truthy _); exact Hd.
Qed.


(** X3: what follows a [CLOSED] or [ERROR] message is never handled: the
    loop gives what it gives for the messages before it. *)
Theorem listen_stops_at_close (pre post : list WSMsg) (stop : WSMsg)
    (c : ClientSocket) :
  is_stop stop = true ->
  listen_loop json_loads call (pre ++ stop :: post) c
    = listen_loop json_loads call pre c.
Proof.
  intros Hstop. revert c. induction pre as [|msg pre IH]; intros c.
  - simpl. destruct stop; try discriminate; reflexivity.
  - destruct msg as [data| | | |]; simpl; try reflexivity; try apply IH.
    destruct (handle_message json_loads call data c) as [c1 fired1].
    rewrite IH. reflexivity.
Qed.

End Dispatch.

Lemma unmatched_message_dropped_witness :
  handle_message (loads_of tick_table) call_returns "stray" (on "tick" 3 init)
    = (on "tick" 3 init, []).
Proof.
  apply (unmatched_message_dropped (loads_of tick_table) call_returns "stray"
           (on "tick" 3 init)).
  right. right.
  exists [("event", JStr "unknown"); ("data", JNum 3)].
  split; [reflexivity |]. split; [left; reflexivity |].
  intros k h. vm_compute. discriminate.
Defined.


Lemma listen_stops_at_close_witness :
  listen_loop (loads_of tick_table) call_returns
    ([TEXT "t1"] ++ CLOSED :: [TEXT "t2"]) (on "tick" 3 init)
  = listen_loop (loads_of tick_table) call_returns [TEXT "t1"] (on "tick" 3 init).
Proof.
  apply (listen_stops_at_close (loads_of tick_table) call_returns
           [TEXT "t1"] [TEXT "t2"] CLOSED (on "tick" 3 init)).
  reflexivity.
Defined.

(** ** Registering and sending *)

(** X4: [un] undoes [on] for an event that had no listener, [un] for an
    event without a listener changes nothing, and a second [on] for the
    same event replaces the first. *)
Theorem on_un_round_trip (E : string) (h1 h2 : handler) (c : ClientSocket) :
  listener c !! E = None ->
  un E (on E h1 c) = c /\
  un E c = c /\
  on E h2 (on E h1 c) = on E h2 c.
Proof.
  intros Hfree. destruct c as [w se m r]. unfold un, on, set_listener. simpl in *.
  split; [| split]; f_equal.
  - rewrite delete_insert_eq. apply delete_id, Hfree.
  - apply delete_id, Hfree.
  - apply insert_insert_eq.
Qed.

Lemma on_un_round_trip_witness :
  un "chat" (on "chat" 1 init) = init /\
  un "chat" init = init /\
  on "chat" 2 (on "chat" 1 init) = on "chat" 2 init.
Proof. apply (on_un_round_trip "chat" 1 2 init). reflexivity. Defined.

Lemma ask_token_nonempty (event : string) (m : gmap string handler) :
  ask_token event m ≠ "".
Proof. unfold ask_token. destruct event; discriminate. Qed.

Lemma emit_listener (event : string) (data : json) (callback : option handler)
    (c : ClientSocket) :
  listener (emit event data callback c).2 =
    match callback with
    | Some cb => if connected c
                 then <[ask_token event (listener c) := cb]> (listener c)
                 else listener c
    | None => listener c
    end.
Proof.
  unfold emit, connected. destruct (ws c) as [w|]; [| destruct callback; reflexivity].
  destruct (closed w); [destruct callback; reflexivity |].
  destruct callback as [cb|]; simpl;
    destruct (send_json _ w) as [ok w']; reflexivity.
Qed.

Lemma reply_consumes_token (json_loads : string -> option json)
    (call : handler -> json -> ClientSocket -> outcome)
    (event : string) (data : json) (cb : handler) (reply : string)
    (fields : list (string * json)) (c : ClientSocket) :
  connected c = true ->
  json_loads reply = Some (JObj fields) ->
  dict_get "callback" fields = JStr (ask_token event (listener c)) ->
  call cb (dict_get "data" fields) (emit event data (Some cb) c).2
    = Returned (emit event data (Some cb) c).2 ->
  handle_message json_loads call reply (emit event data (Some cb) c).2
    = (un (ask_token event (listener c)) (emit event data (Some cb) c).2,
       [(cb, dict_get "data" fields)]).
Proof.
  intros Hconn Hl Hcb Hcall.
  pose proof (emit_listener event data (Some cb) c) as Hreg. rewrite Hconn in Hreg.
  rewrite (ClientProps.handle_message_token_hit json_loads call reply fields
             (ask_token event (listener c)) cb _ Hl Hcb
             (ask_token_nonempty event (listener c))).
  - rewrite Hcall. reflexivity.
  - rewrite Hreg. apply lookup_insert_eq.
Qed.

Lemma un_emit_listener (event : string) (data : json) (cb : handler)
    (c : ClientSocket) :
  connected c = true ->
  listener c !! ask_token event (listener c) = None ->
  listener (un (ask_token event (listener c)) (emit event data (Some cb) c).2)
    = listener c.
Proof.
  intros Hconn Hfresh.
  pose proof (emit_listener event data (Some cb) c) as Hreg. rewrite Hconn in Hreg.
  unfold un. simpl. rewrite Hreg, delete_insert_eq. apply delete_id, Hfresh.
Qed.

(** X5: a request and its reply.  When the token made up by [emit] is not
    yet a key, the frame that comes back with that token invokes the
    callback once, with the data of the reply, and, the callback returning
    without a change to the client, the registry is then what it was before
    the request. *)
Theorem request_reply_round_trip (json_loads : string -> option json)
    (call : handler -> json -> ClientSocket -> outcome)
    (event : string) (data : json) (cb : handler) (reply : string)
    (fields : list (string * json)) (c : ClientSocket) :
  connected c = true ->
  listener c !! ask_token event (listener c) = None ->
  json_loads reply = Some (JObj fields) ->
  dict_get "callback" fields = JStr (ask_token event (listener c)) ->
  call cb (dict_get "data" fields) (emit event data (Some cb) c).2
    = Returned (emit event data (Some cb) c).2 ->
  (handle_message json_loads call reply (emit event data (Some cb) c).2).2
    = [(cb, dict_get "data" fields)] /\
  listener (handle_message json_loads call reply (emit event data (Some cb) c).2).1
    = listener c.
Proof.
  intros Hconn Hfresh Hl Hcb Hcall.
  rewrite (reply_consumes_token json_loads call event data cb reply fields c
             Hconn Hl Hcb Hcall).
  split; [reflexivity |]. apply un_emit_listener; assumption.
Qed.

Lemma request_reply_round_trip_witness :
  (handle_message (loads_of echo_table) call_returns "reply"
     (emit "echo" (JStr "hi") (Some 1) (set_ws (Some (fresh_ws [])) init)).2).2
    = [(1, JStr "hi-back")] /\
  listener (handle_message (loads_of echo_table) call_returns "reply"
     (emit "echo" (JStr "hi") (Some 1) (set_ws (Some (fresh_ws [])) init)).2).1
    = listener (set_ws (Some (fresh_ws [])) init).
Proof.
  apply (request_reply_round_trip (loads_of echo_table) call_returns "echo"
           (JStr "hi") 1 "reply"
           [("event", JStr "echo"); ("data", JStr "hi-back");
            ("callback", JStr "echo_ask_0")]
           (set_ws (Some (fresh_ws [])) init));
    reflexivity.
Defined.

(** X6: on a connected client [emit] returns [True] exactly when the next
    send on the transport goes through; then its one frame, with the token
    when there is a callback, is what was queued, and otherwise nothing
    was.  Without a callback the registry is not touched. *)
Theorem emit_queues_its_frame (event : string) (data : json)
    (callback : option handler) (c : ClientSocket) (w : WebSocket) :
  ws c = Some w ->
  closed w = false ->
  (emit event data callback c).1
    = match faults w with true :: _ => false | _ => true end /\
  sent <$> ws (emit event data callback c).2
    = Some (sent w ++
            if (emit event data callback c).1
            then [frame event data
                    ((fun _ => ask_token event (listener c)) <$> callback)]
            else []) /\
  (callback = None -> listener (emit event data callback c).2 = listener c).
Proof.
  intros Hws Hopen. unfold emit. rewrite Hws, Hopen.
  unfold send_json. rewrite Hopen.
  destruct callback as [cb|]; destruct (faults w) as [|[|] rest]; simpl;
    rewrite ?app_nil_r; repeat split; intros; try reflexivity; discriminate.
Qed.

Lemma emit_queues_its_frame_witness :
  (emit "chat" (JStr "hello") None (set_ws (Some (fresh_ws [])) init)).1 = true /\
  sent <$> ws (emit "chat" (JStr "hello") None (set_ws (Some (fresh_ws [])) init)).2
    = Some [JObj [("event", JStr "chat"); ("data", JStr "hello")]].
Proof.
  pose proof (emit_queues_its_frame "chat" (JStr "hello") None
                (set_ws (Some (fresh_ws [])) init) (fresh_ws []) eq_refl eq_refl) as H.
  split; [exact (proj1 H) | exact (proj1 (proj2 H))].
Defined.

(** ** Tokens that do not collide *)

Lemma prefix_app (p rest : string) : String.prefix p (p +:+ rest) = true.
Proof.
  induction p as [|a p IH]; simpl; [destruct rest; reflexivity |].
  destruct (Ascii.ascii_dec a a); [exact IH | contradiction].
Qed.

Lemma nth_token_inj (event : string) (i j : nat) :
  nth_token event i = nth_token event j -> i = j.
Proof.
  unfold nth_token. intros H.
  apply (inj (String.append _)) in H. simpl in H.
  injection H as H. exact (pretty_nat_inj _ _ H).
Qed.

Lemma filter_length_Permutation {A : Type} (f : A -> bool) (l l' : list A) :
  l ≡ₚ l' -> List.length (List.filter f l) = List.length (List.filter f l').
Proof.
  induction 1 as [|x l l' _ IH|x y l|l l' l'' _ IH1 _ IH2]; simpl.
  - reflexivity.
  - destruct (f x); simpl; congruence.
  - destruct (f x), (f y); reflexivity.
  - congruence.
Qed.

Lemma count_prefixed_insert (p k : string) (h : handler) (m : gmap string handler) :
  m !! k = None ->
  count_prefixed p (<[k := h]> m)
    = (if String.prefix p k then 1 else 0) + count_prefixed p m.
Proof.
  intros Hfree. unfold count_prefixed.
  rewrite (filter_length_Permutation _ _ (k :: (map_to_list m).*1)).
  - simpl. destruct (String.prefix p k); reflexivity.
  - rewrite (map_to_list_insert m k h Hfree). reflexivity.
Qed.

(** X7: when the keys that start with [<event>_ask] are exactly the tokens
    numbered below their count (as after any number of requests for the
    event and no reply), the token [emit] makes up is not a key, so no
    entry is replaced, and the registry is again of that shape, with the
    next number as the next token. *)
Theorem emit_token_fresh_when_dense (event : string) (data : json)
    (cb : handler) (c : ClientSocket) :
  connected c = true ->
  dense event (listener c) ->
  listener c !! ask_token event (listener c) = None /\
  listener (emit event data (Some cb) c).2 !! ask_token event (listener c) = Some cb /\
  (forall k, k ≠ ask_token event (listener c) ->
             listener (emit event data (Some cb) c).2 !! k = listener c !! k) /\
  dense event (listener (emit event data (Some cb) c).2) /\
  ask_token event (listener (emit event data (Some cb) c).2)
    = nth_token event (S (count_prefixed (event +:+ "_ask") (listener c))).
Proof.
  intros Hconn Hdense.
  set (n := count_prefixed (event +:+ "_ask") (listener c)).
  assert (Htok : ask_token event (listener c) = nth_token event n) by reflexivity.
  assert (Hpre : String.prefix (event +:+ "_ask") (nth_token event n) = true)
    by apply prefix_app.
  assert (Hfresh : listener c !! nth_token event n = None).
  { destruct (listener c !! nth_token event n) as [h|] eqn:E; [| reflexivity].
    destruct (Hdense (nth_token event n)) as (i & Hi & Heq); [eauto | exact Hpre |].
    apply nth_token_inj in Heq. fold n in Hi. lia. }
  pose proof (emit_listener event data (Some cb) c) as Hreg.
  rewrite Hconn, Htok in Hreg.
  assert (Hcount : count_prefixed (event +:+ "_ask")
                     (listener (emit event data (Some cb) c).2) = S n).
  { rewrite Hreg, (count_prefixed_insert _ _ _ _ Hfresh), Hpre. reflexivity. }
  rewrite Htok. split; [exact Hfresh |]. split; [| split; [| split]].
  - rewrite Hreg. apply lookup_insert_eq.
  - intros k Hk. rewrite Hreg. apply lookup_insert_ne. congruence.
  - intros k Hk Hp. rewrite Hcount. rewrite Hreg in Hk.
    destruct (decide (k = nth_token event n)) as [->|Hne].
    + exists n. split; [lia | reflexivity].
    + rewrite lookup_insert_ne in Hk by congruence.
      destruct (Hdense k Hk Hp) as (i & Hi & Heq). fold n in Hi.
      exists i. split; [lia | exact Heq].
  - unfold ask_token at 1. rewrite Hcount. reflexivity.
Qed.

Lemma emit_token_fresh_when_dense_witness :
  listener two_pending !! "a_ask_2" = None /\
  listener (emit "a" JNull (Some 3) two_pending).2 !! "a_ask_2" = Some 3.
Proof.
  assert (Hd0 : dense "a" (listener (set_ws (Some (fresh_ws [])) init))).
  { intros k [h Hk]. simpl in Hk. rewrite lookup_empty in Hk. discriminate. }
  pose proof (emit_token_fresh_when_dense "a" JNull 1
                (set_ws (Some (fresh_ws [])) init) eq_refl Hd0)
    as (_ & _ & _ & Hd1 & _).
  pose proof (emit_token_fresh_when_dense "a" JNull 2
                (emit "a" JNull (Some 1) (set_ws (Some (fresh_ws [])) init)).2
                eq_refl Hd1)
    as (_ & _ & _ & Hd2 & _).
  pose proof (emit_token_fresh_when_dense "a" JNull 3 two_pending eq_refl Hd2) as H.
  split; [exact (proj1 H) | exact (proj1 (proj2 H))].
Defined.

(** ** Closing *)

(** X8: [close()] twice is [close()] once. *)
Theorem close_idempotent (s : Sys) : close (close s) = close s.
Proof.
  destruct s as [[w se m r] ts efs]. unfold close, with_client. simpl.
  destruct w as [[[|] fs st]|], se as [[[|]]|]; reflexivity.
Qed.

(** X9: after [close()] the client is not connected and not running, every
    [emit] returns [False] and changes nothing, and the listeners are all
    still registered. *)
Theorem closed_client_cannot_emit (s : Sys) (event : string) (data : json)
    (callback : option handler) :
  connected (client (close s)) = false /\
  _running (client (close s)) = false /\
  emit event data callback (client (close s)) = (false, client (close s)) /\
  listener (client (close s)) = listener (client s).
Proof.
  assert (Hc : connected (client (close s)) = false).
  { destruct s as [[w se m r] ts efs]. unfold close, connected. simpl.
    destruct w as [[[|] fs st]|], se as [[[|]]|]; reflexivity. }
  split; [exact Hc |]. split; [| split].
  - destruct s as [[w se m r] ts efs]. unfold close. simpl.
    destruct w as [[[|] fs st]|], se as [[[|]]|]; reflexivity.
  - unfold connected in Hc. unfold emit.
    destruct (ws (client (close s))) as [w|]; [| reflexivity].
    destruct (closed w); [reflexivity | discriminate].
  - destruct s as [[w se m r] ts efs]. unfold close. simpl.
    destruct w as [[[|] fs st]|], se as [[[|]]|]; reflexivity.
Qed.

(** ** No reconnection after [close()] *)

Lemma active_set_pc_le (s : Sys) (i : nat) (p q : pc) :
  tasks s !! i = Some p ->
  is_active p = true ->
  active (set_pc i q s) <= active s.
Proof.
  intros Hi Hp. unfold active. simpl.
  pose proof (ClientProps.count_active_insert (tasks s) i p q Hi) as Hc.
  rewrite Hp in Hc. destruct (is_active q); lia.
Qed.

Lemma handshakes_log (es : list effect) (s : Sys) :
  List.forallb (fun e => negb (is_handshake e)) es = true ->
  handshakes (log es s) = handshakes s.
Proof.
  intros Hes. unfold handshakes, log. simpl. rewrite List.filter_app.
  rewrite List.length_app.
  assert (Hnil : List.filter is_handshake es = []).
  { induction es as [|e es IH]; [reflexivity |]. simpl in *.
    apply andb_prop in Hes as [He Hes]. destruct (is_handshake e); [discriminate |].
    apply IH, Hes. }
  rewrite Hnil. simpl. lia.
Qed.

Lemma wound_down_end_of_attempt (s0 s : Sys) (i : nat) (p : pc) :
  tasks s !! i = Some p ->
  is_active p = true ->
  wound_down s0 s -> wound_down s0 (end_of_attempt i s).
Proof.
  intros Hi Hp (Hr & Hh & Ha). unfold end_of_attempt. simpl. rewrite Hr.
  split; [exact Hr |]. split; [exact Hh |].
  etransitivity; [| exact Ha].
  apply (active_set_pc_le (with_client (set_ws None (client s)) s) i p Done Hi Hp).
Qed.

Section Tasks.

Variable json_loads : string -> option json.
Variable call : handler -> json -> ClientSocket -> outcome.

Hypothesis call_keeps_running :
  forall h d c, _running (state_of (call h d c)) = _running c.

Lemma wound_down_step (s0 s : Sys) (e : event) :
  is_connect e = false ->
  wound_down s0 s -> wound_down s0 (step json_loads call e s).
Proof.
  intros Hnc Hinv. pose proof Hinv as (Hr & Hh & Ha).
  destruct e as [| |i w|i|i msg|i|i]; simpl.
  - discriminate.
  - split; [| split; [exact Hh | exact Ha]].
    destruct s as [[w se m r] ts efs]. unfold close. simpl.
    destruct w as [[[|] fs st]|], se as [[[|]]|]; reflexivity.
  - destruct (tasks s !! i) as [[| | |]|] eqn:Hi; try exact Hinv.
    split; [exact Hr |].
    split; [change (handshakes (log [Notify true] s) = handshakes s0);
            rewrite handshakes_log by reflexivity; exact Hh |].
    etransitivity; [| exact Ha].
    apply (active_set_pc_le
             (log [Notify true] (with_client (set_ws (Some w) (client s)) s))
             i AwaitConnect AwaitMessage Hi eq_refl).
  - destruct (tasks s !! i) as [[| | |]|] eqn:Hi; try exact Hinv.
    apply (wound_down_end_of_attempt s0 (log [Notify false] s) i AwaitConnect Hi eq_refl).
    split; [exact Hr |]. split; [| exact Ha].
    rewrite handshakes_log by reflexivity. exact Hh.
  - destruct (tasks s !! i) as [[| | |]|] eqn:Hi; try exact Hinv.
    destruct msg; try exact Hinv.
    + split; [| split; [exact Hh | exact Ha]]. simpl.
      rewrite (ClientProps.handle_message_running json_loads call call_keeps_running).
      exact Hr.
    + apply (wound_down_end_of_attempt s0 s i AwaitMessage Hi eq_refl Hinv).
    + apply (wound_down_end_of_attempt s0 s i AwaitMessage Hi eq_refl Hinv).
  - destruct (tasks s !! i) as [[| | |]|] eqn:Hi; try exact Hinv.
    apply (wound_down_end_of_attempt s0 s i AwaitMessage Hi eq_refl Hinv).
  - destruct (tasks s !! i) as [[| | |]|] eqn:Hi; try exact Hinv.
    unfold loop_head. rewrite Hr.
    split; [exact Hr |]. split; [exact Hh |].
    etransitivity; [| exact Ha].
    apply (active_set_pc_le s i AwaitSleep Done Hi eq_refl).
Qed.

Lemma wound_down_run (s0 s : Sys) (es : list event) :
  List.forallb (fun e => negb (is_connect e)) es = true ->
  wound_down s0 s -> wound_down s0 (run json_loads call es s).
Proof.
  revert s. induction es as [|e es IH]; intros s Hes Hinv; [exact Hinv |].
  simpl in Hes. apply andb_prop in Hes as [He Hes].
  simpl. apply IH; [exact Hes |].
  apply wound_down_step; [| exact Hinv].
  destruct (is_connect e); [discriminate | reflexivity].
Qed.

End Tasks.

(** X10: after [close()], and until [connect()] is called again, no
    handshake is started and no loop is started: whatever the transport and
    the scheduler do, the client stays not running, the number of
    handshakes is the one at the time of the [close()], and the number of
    active loops does not grow.  (Callbacks are taken not to change
    [_running].) *)
Theorem no_handshake_after_close (json_loads : string -> option json)
    (call : handler -> json -> ClientSocket -> outcome)
    (es : list event) (s : Sys) :
  (forall h d c, _running (state_of (call h d c)) = _running c) ->
  List.forallb (fun e => negb (is_connect e)) es = true ->
  _running (client (run json_loads call es (close s))) = false /\
  handshakes (run json_loads call es (close s)) = handshakes s /\
  active (run json_loads call es (close s)) <= active s.
Proof.
  intros Hcall Hes.
  apply (wound_down_run json_loads call Hcall s (close s) es Hes).
  split; [| split; [reflexivity | reflexivity]].
  destruct s as [[w se m r] ts efs]. unfold close. simpl.
  destruct w as [[[|] fs st]|], se as [[[|]]|]; reflexivity.
Qed.

Lemma no_handshake_after_close_witness :
  handshakes (run (loads_of []) call_returns [Wake 0; ConnectFail 0; Wake 0]
                (close (run (loads_of []) call_returns
                          [CallConnect; ConnectFail 0] init_sys)))
    = handshakes (run (loads_of []) call_returns
                    [CallConnect; ConnectFail 0] init_sys).
Proof.
  refine (proj1 (proj2 (no_handshake_after_close (loads_of []) call_returns
            [Wake 0; ConnectFail 0; Wake 0]
            (run (loads_of []) call_returns [CallConnect; ConnectFail 0] init_sys)
            _ _))).
  - intros h d c. reflexivity.
  - reflexivity.
Defined.

(** ** Status listeners *)

Lemma notify_from_all (status_call : handler -> bool -> option string ->
                                     Observed -> status_outcome)
    (connected : bool) (error : option string) (fuel i : nat) (o : Observed) :
  (forall l b e o', _status_listeners (status_state (status_call l b e o'))
                    = _status_listeners o') ->
  List.length (_status_listeners o) - i < fuel ->
  exists o',
    notify_from status_call fuel i connected error o
      = Some (o', drop i (_status_listeners o)) /\
    _status_listeners o' = _status_listeners o.
Proof.
  intros Hkeep. revert i o. induction fuel as [|fuel IH]; intros i o Hlen.
  - lia.
  - simpl. destruct (_status_listeners o !! i) as [l|] eqn:Hi.
    + set (o1 := status_state (status_call l connected error o)).
      assert (H1 : _status_listeners o1 = _status_listeners o) by apply Hkeep.
      apply lookup_lt_Some in Hi as Hlt.
      destruct (IH (S i) o1) as (o' & Hrun & Hsame); [rewrite H1; lia |].
      rewrite Hrun. exists o'. split; [| congruence].
      rewrite H1. rewrite (drop_S _ _ _ Hi). reflexivity.
    + exists o. split; [| reflexivity].
      apply lookup_ge_None in Hi. rewrite drop_ge by exact Hi. reflexivity.
Qed.

(** X11: [_notify_status_change] calls every status listener exactly once,
    in the order of registration, whether or not some of them raise
    (provided none of them registers a listener while being called). *)
Theorem status_listeners_all_called
    (status_call : handler -> bool -> option string -> Observed -> status_outcome)
    (fuel : nat) (connected : bool) (error : option string) (o : Observed) :
  (forall l b e o', _status_listeners (status_state (status_call l b e o'))
                    = _status_listeners o') ->
  List.length (_status_listeners o) < fuel ->
  exists o',
    _notify_status_change status_call fuel connected error o
      = Some (o', _status_listeners o) /\
    _status_listeners o' = _status_listeners o.
Proof.
  intros Hkeep Hlen. unfold _notify_status_change.
  destruct (notify_from_all status_call connected error fuel 0 o Hkeep)
    as (o' & Hrun & Hsame); [lia |].
  exists o'. split; [exact Hrun | exact Hsame].
Qed.

Lemma status_listeners_all_called_witness :
  exists o',
    _notify_status_change odd_raises 4 false (Some "lost")
      (add_status_listener 3 (add_status_listener 2 (add_status_listener 1
         {| socket := init; _status_listeners := [] |})))
    = Some (o', [1; 2; 3]).
Proof.
  destruct (status_listeners_all_called odd_raises 4 false (Some "lost")
              (add_status_listener 3 (add_status_listener 2 (add_status_listener 1
                 {| socket := init; _status_listeners := [] |}))))
    as (o' & Hrun & _).
  - intros l b e o'. unfold odd_raises. destruct (Nat.odd l); reflexivity.
  - simpl. lia.
  - exists o'. exact Hrun.
Defined.

End ClientMoreProps.

(** * More properties of the server *)

Module ServerMoreProps.
Import Server ServerMore.

(** ** Errors that are answered with an [error] frame *)

Lemma store_ok (fields : list (string * json)) (env : Env) :
  exists env1,
    (if truthy (dict_get "callback" fields)
     then request_set "event" (dict_get "event" fields) ;;
          request_set "callback" (dict_get "callback" fields)
     else ret tt) env = (Ok tt, env1) /\
    heap env1 = heap env /\
    _socket_clients env1 = _socket_clients env.
Proof.
  destruct (truthy (dict_get "callback" fields)); eexists; (split; [reflexivity |]);
    split; reflexivity.
Qed.

(** X14: when the handler raises without having sent anything, [todo]
    answers, on a transport that is open and takes the frame, with one
    [error] frame that carries the message of the exception, and returns
    normally. *)
Theorem handler_exception_becomes_error_frame
    (event_handler : json -> option Handler) (io : IO)
    (fields : list (string * json)) (handler : Handler) (message : string)
    (w : WebSocket) (env : Env) :
  resolve event_handler (dict_get "event" fields) handler
    (dict_get "event" fields) (dict_get "data" fields)
    (truthy (dict_get "callback" fields)) = ([], Raise message) ->
  heap env !! ws io = Some w ->
  sendable w = true ->
  (todo event_handler io (JObj fields) handler env).1 = Ok tt /\
  heap (todo event_handler io (JObj fields) handler env).2 !! ws io
    = Some {| closed := false; faults := tail (faults w);
              sent := sent w ++ [error_frame [("message", JStr message)]] |}.
Proof.
  intros Hres Hw Hs. unfold todo. rewrite Hres.
  destruct (store_ok fields env) as (env1 & Hstore & Hheap & _).
  rewrite (ServerProps.bind_ok _ _ env env1 tt Hstore).
  unfold try_except. simpl perform.
  rewrite (ServerProps.bind_ok (ret tt) _ env1 env1 tt) by reflexivity.
  unfold raise, io_emit.
  rewrite (ServerProps.ws_send_json_ok (ws io) _ w env1) by (rewrite ?Hheap; assumption).
  simpl. split; [reflexivity |]. apply lookup_insert_eq.
Qed.

Lemma handler_exception_becomes_error_frame_witness :
  (todo no_event_handler echo_io (JObj echo_fields) (raises "boom") one_connection).1
    = Ok tt /\
  heap (todo no_event_handler echo_io (JObj echo_fields) (raises "boom")
          one_connection).2 !! 0
    = Some {| closed := false; faults := [];
              sent := [error_frame [("message", JStr "boom")]] |}.
Proof.
  apply (handler_exception_becomes_error_frame no_event_handler echo_io echo_fields
           (raises "boom") "boom" (fresh_ws []) one_connection);
    reflexivity.
Defined.

Section Loop.

Variable json_loads : string -> option json.
Variable event_handler : json -> option Handler.

(** X15: a text message that is not JSON is answered, on a transport that
    is open and takes the frame, with the [error] frame ["Invalid JSON
    format"]; the handler is not run, nothing else changes, and the loop
    goes on. *)
Theorem invalid_json_gets_error_frame (io : IO) (handler : Handler)
    (data : string) (w : WebSocket) (env : Env) :
  json_loads data = None ->
  heap env !! ws io = Some w ->
  sendable w = true ->
  loop_body json_loads event_handler io handler (TEXT data) env
    = (Ok tt,
       set_heap
         (<[ws io := {| closed := false; faults := tail (faults w);
                        sent := sent w ++
                          [error_frame [("message", JStr "Invalid JSON format")]] |}]>
            (heap env)) env).
Proof.
  intros Hl Hw Hs. unfold loop_body, try_except. rewrite Hl. unfold raise, io_emit.
  apply (ServerProps.ws_send_json_ok (ws io) _ w env Hw Hs).
Qed.

(** X16: a text message that is JSON but not an object (a list, a number,
    a string, ...) is answered, on a transport that is open and takes the
    frame, with the [error] frame ["An unexpected error occurred"]; the
    handler is not run and the loop goes on. *)
Theorem non_object_gets_error_frame (io : IO) (handler : Handler)
    (data : string) (v : json) (w : WebSocket) (env : Env) :
  json_loads data = Some v ->
  (forall fields, v ≠ JObj fields) ->
  heap env !! ws io = Some w ->
  sendable w = true ->
  exists reason,
    loop_body json_loads event_handler io handler (TEXT data) env
      = (Ok tt,
         set_heap
           (<[ws io := {| closed := false; faults := tail (faults w);
                          sent := sent w ++
                            [error_frame
                               [("message", JStr "An unexpected error occurred");
                                ("error", JStr reason)]] |}]>
              (heap env)) env).
Proof.
  intros Hl Hno Hw Hs. unfold loop_body, try_except. rewrite Hl.
  destruct v as [| | | | |fields]; try (destruct (Hno fields); reflexivity);
    eexists; simpl; unfold raise, io_emit;
    apply (ServerProps.ws_send_json_ok (ws io) _ w env Hw Hs).
Qed.

End Loop.

Lemma invalid_json_gets_error_frame_witness :
  heap (loop_body no_loads no_event_handler echo_io (raises "boom")
          (TEXT "{oops") one_connection).2 !! 0
    = Some {| closed := false; faults := [];
              sent := [error_frame [("message", JStr "Invalid JSON format")]] |}.
Proof.
  rewrite (invalid_json_gets_error_frame no_loads no_event_handler echo_io
             (raises "boom") "{oops" (fresh_ws []) one_connection
             eq_refl eq_refl eq_refl).
  reflexivity.
Defined.

Lemma non_object_gets_error_frame_witness :
  exists reason,
    heap (loop_body (loads_of [("[1]", JArr [JNum 1])]) no_event_handler echo_io
            (raises "boom") (TEXT "[1]") one_connection).2 !! 0
      = Some {| closed := false; faults := [];
                sent := [error_frame
                           [("message", JStr "An unexpected error occurred");
                            ("error", JStr reason)]] |}.
Proof.
  destruct (non_object_gets_error_frame (loads_of [("[1]", JArr [JNum 1])])
              no_event_handler echo_io (raises "boom") "[1]" (JArr [JNum 1])
              (fresh_ws []) one_connection eq_refl) as [reason Hrun];
    [discriminate | reflexivity | reflexivity |].
  exists reason. rewrite Hrun. reflexivity.
Defined.

(** ** A reply and nothing else *)

Lemma todo_reply_only_run (event_handler : json -> option Handler)
    (io : IO) (fields : list (string * json)) (handler : Handler)
    (X Y : json) (w : WebSocket) (env : Env) :
  truthy (dict_get "callback" fields) = true ->
  truthy Y = false ->
  resolve event_handler (dict_get "event" fields) handler
    (dict_get "event" fields) (dict_get "data" fields) true
    = ([Reply X], Return Y) ->
  heap env !! ws io = Some w ->
  sendable w = true ->
  exists env2,
    todo event_handler io (JObj fields) handler env = (Ok tt, env2) /\
    heap env2 !! ws io
      = Some {| closed := false; faults := tail (faults w);
                sent := sent w ++
                  [JObj [("event", dict_get "event" fields); ("data", X);
                         ("callback", dict_get "callback" fields)]] |}.
Proof.
  intros Htok HY Hres Hw Hs.
  set (event := dict_get "event" fields) in *.
  set (token := dict_get "callback" fields) in *.
  set (env1 := set_request
                 (dict_set "callback" token (dict_set "event" event (request env)))
                 env).
  assert (Hopen : closed w = false).
  { unfold sendable in Hs. destruct (closed w); [discriminate | reflexivity]. }
  assert (Hstore : (request_set "event" event ;; request_set "callback" token) env
                   = (Ok tt, env1)) by reflexivity.
  assert (Hask : exists env2,
             ask X io env1 = (Ok tt, env2) /\
             heap env2 !! ws io
               = Some {| closed := false; faults := tail (faults w);
                         sent := sent w ++
                           [JObj [("event", event); ("data", X); ("callback", token)]] |}).
  { eexists. unfold ask.
    rewrite (ServerProps.bind_ok (ws_closed (ws io)) _ env1 env1 false)
      by (unfold ws_closed; simpl; rewrite Hw, Hopen; reflexivity).
    rewrite (ServerProps.bind_ok (request_get "event") _ env1 env1 event).
    2:{ unfold request_get. simpl.
        rewrite (ServerProps.dict_lookup_set_ne "callback" "event") by discriminate.
        rewrite ServerProps.dict_lookup_set_eq. reflexivity. }
    rewrite (ServerProps.bind_ok (request_get "callback") _ env1 env1 token).
    2:{ unfold request_get. simpl. rewrite ServerProps.dict_lookup_set_eq. reflexivity. }
    rewrite (ServerProps.ws_send_json_ok (ws io) _ w env1 Hw Hs).
    split; [reflexivity |]. simpl. apply lookup_insert_eq. }
  destruct Hask as (env2 & Hask & Hheap).
  assert (Hall : todo event_handler io (JObj fields) handler env = (Ok tt, env2)).
  { unfold todo. fold event token. rewrite Htok, Hres.
    rewrite (ServerProps.bind_ok _ _ env env1 tt Hstore).
    apply ServerProps.try_except_ok. simpl perform.
    rewrite (ServerProps.bind_ok _ _ env1 env2 tt)
      by (rewrite (ServerProps.bind_ok _ _ env1 env2 tt Hask); reflexivity).
    rewrite HY. reflexivity. }
  exists env2. split; [exact Hall | exact Hheap].
Qed.

(** X23: on a frame with a callback token, a handler that calls the reply
    capability with [X] and returns nothing (or any value that Python
    takes for false) makes [todo] send, on a transport that is open and
    takes the frame, exactly one frame: the event with [X] and the
    token. *)
Theorem todo_reply_only (event_handler : json -> option Handler)
    (io : IO) (fields : list (string * json)) (handler : Handler)
    (X Y : json) (w : WebSocket) (env : Env) :
  truthy (dict_get "callback" fields) = true ->
  truthy Y = false ->
  resolve event_handler (dict_get "event" fields) handler
    (dict_get "event" fields) (dict_get "data" fields) true
    = ([Reply X], Return Y) ->
  heap env !! ws io = Some w ->
  sendable w = true ->
  (todo event_handler io (JObj fields) handler env).1 = Ok tt /\
  heap (todo event_handler io (JObj fields) handler env).2 !! ws io
    = Some {| closed := false; faults := tail (faults w);
              sent := sent w ++
                [JObj [("event", dict_get "event" fields); ("data", X);
                       ("callback", dict_get "callback" fields)]] |}.
Proof.
  intros Htok HY Hres Hw Hs.
  destruct (todo_reply_only_run event_handler io fields handler X Y w env
              Htok HY Hres Hw Hs) as (env2 & Hrun & Hheap).
  rewrite Hrun. split; [reflexivity | exact Hheap].
Qed.

Lemma todo_reply_only_witness :
  heap (todo no_event_handler echo_io (JObj echo_fields)
          (reply_and_return (JStr "hi-back") JNull) one_connection).2 !! 0
    = Some {| closed := false; faults := [];
              sent := [JObj [("event", JStr "echo"); ("data", JStr "hi-back");
                             ("callback", JStr "echo_ask_0")]] |}.
Proof.
  exact (proj2 (todo_reply_only no_event_handler echo_io echo_fields
                  (reply_and_return (JStr "hi-back") JNull) (JStr "hi-back") JNull
                  (fresh_ws []) one_connection
                  eq_refl eq_refl eq_refl eq_refl eq_refl)).
Defined.

(** ** Frames never end the loop *)

Lemma steady_send (a : nat) (frame : json) (env : Env) :
  steady a env ->
  (ws_send_json a frame env).1 = Ok tt /\ steady a (ws_send_json a frame env).2.
Proof.
  intros (w & Hw & Hopen & Hfaults).
  rewrite (ServerProps.ws_send_json_ok a frame w env Hw)
    by (unfold sendable; rewrite Hopen, Hfaults; reflexivity).
  split; [reflexivity |]. unfold steady. cbn [snd heap set_heap]. eexists.
  rewrite lookup_insert_eq.
  split; [reflexivity |]. simpl. rewrite Hfaults. split; reflexivity.
Qed.

Lemma safe_calm (a : nat) {A : Type} (m : M A) : safe a m -> calm a m.
Proof. intros H env Hs. apply (H env Hs). Qed.

Lemma safe_ret (a : nat) {A : Type} (x : A) : safe a (ret x).
Proof. intros env Hs. split; [eexists; reflexivity | exact Hs]. Qed.

Lemma calm_raise (a : nat) {A : Type} (e : exn) : calm a (@raise A e).
Proof. intros env Hs. exact Hs. Qed.

Lemma safe_send (a : nat) (frame : json) : safe a (ws_send_json a frame).
Proof.
  intros env Hs. destruct (steady_send a frame env Hs) as [Hr Hs'].
  split; [eexists; exact Hr | exact Hs'].
Qed.

Lemma calm_bind (a : nat) {A B : Type} (m : M A) (k : A -> M B) :
  calm a m -> (forall x, calm a (k x)) -> calm a (bind m k).
Proof.
  intros Hm Hk env Hs. unfold bind. specialize (Hm env Hs).
  destruct (m env) as [[x|e] env']; simpl in *; [apply Hk, Hm | exact Hm].
Qed.

Lemma safe_bind (a : nat) {A B : Type} (m : M A) (k : A -> M B) :
  safe a m -> (forall x, safe a (k x)) -> safe a (bind m k).
Proof.
  intros Hm Hk env Hs. unfold bind. destruct (Hm env Hs) as [[x Hx] Hs'].
  destruct (m env) as [[y|e] env']; simpl in *; [apply Hk, Hs' | discriminate].
Qed.

Lemma safe_try_except (a : nat) {A : Type} (m : M A) (h : exn -> M A) :
  calm a m -> (forall e, safe a (h e)) -> safe a (try_except m h).
Proof.
  intros Hm Hh env Hs. unfold try_except. specialize (Hm env Hs).
  destruct (m env) as [[x|e] env']; simpl in *.
  - split; [eexists; reflexivity | exact Hm].
  - apply Hh, Hm.
Qed.

Lemma safe_request_set (a : nat) (key : string) (v : json) :
  safe a (request_set key v).
Proof. intros env Hs. split; [eexists; reflexivity | exact Hs]. Qed.

Lemma calm_request_get (a : nat) (key : string) : calm a (request_get key).
Proof.
  intros env Hs. unfold request_get.
  destruct (dict_lookup key (request env)); exact Hs.
Qed.

Lemma steady_ws_closed (a : nat) (env : Env) :
  steady a env -> ws_closed a env = (Ok false, env).
Proof.
  intros (w & Hw & Hopen & _). unfold ws_closed. rewrite Hw, Hopen. reflexivity.
Qed.

Lemma calm_ask (data : json) (io : IO) : calm (ws io) (ask data io).
Proof.
  intros env Hs. unfold ask, bind at 1. rewrite (steady_ws_closed _ _ Hs).
  revert env Hs.
  change (calm (ws io)
            (event <- request_get "event" ;;
             callback <- request_get "callback" ;;
             ws_send_json (ws io)
               (JObj [("event", event); ("data", data); ("callback", callback)]))).
  apply calm_bind; [apply calm_request_get | intros event].
  apply calm_bind; [apply calm_request_get | intros callback].
  apply safe_calm, safe_send.
Qed.

Lemma calm_perform (io : IO) (has_callback : bool) (acts : list action) :
  Hangup ∉ acts -> calm (ws io) (perform io has_callback acts).
Proof.
  induction acts as [|[value|event data|] acts IH]; intros Hno; simpl.
  - apply safe_calm, safe_ret.
  - apply calm_bind; [| intros _; apply IH; set_solver].
    destruct has_callback; [apply calm_ask | apply calm_raise].
  - apply calm_bind; [apply safe_calm, safe_send | intros _; apply IH; set_solver].
  - exfalso. apply Hno. left.
Qed.

Section Loop.

Variable json_loads : string -> option json.
Variable event_handler : json -> option Handler.
Variable handler : Handler.

Hypothesis handler_stays : never_hangs_up handler.
Hypothesis event_handlers_stay :
  forall event h, event_handler event = Some h -> never_hangs_up h.

Lemma resolve_stays (event : json) : never_hangs_up (resolve event_handler event handler).
Proof.
  unfold resolve. destruct (event_handler event) as [h|] eqn:E;
    [apply (event_handlers_stay event h E) | exact handler_stays].
Qed.

Lemma calm_todo (io : IO) (payload : json) :
  calm (ws io) (todo event_handler io payload handler).
Proof.
  destruct payload as [| | | | |fields]; try apply calm_raise.
  unfold todo. apply calm_bind.
  - destruct (truthy (dict_get "callback" fields)); [| apply safe_calm, safe_ret].
    apply safe_calm, safe_bind; [apply safe_request_set | intros _; apply safe_request_set].
  - intros _. apply safe_calm, safe_try_except; [| intros e; apply safe_send].
    pose proof (resolve_stays (dict_get "event" fields) (dict_get "event" fields)
                  (dict_get "data" fields) (truthy (dict_get "callback" fields))) as Hno.
    destruct (resolve event_handler _ handler _ _ _) as [acts fin].
    apply calm_bind; [apply calm_perform, Hno | intros _].
    destruct fin as [value|message]; [| apply calm_raise].
    destruct (truthy value); [apply safe_calm, safe_send | apply safe_calm, safe_ret].
Qed.

Lemma safe_loop_body (io : IO) (msg : WSMsg) :
  safe (ws io) (loop_body json_loads event_handler io handler msg).
Proof.
  destruct msg as [data| | | |]; try apply safe_ret.
  apply safe_try_except.
  - destruct (json_loads data); [apply calm_todo | apply calm_raise].
  - intros [|message]; apply safe_send.
Qed.

(** X17: while the transport is open and takes every send, and no handler
    closes the connection, nothing that arrives ends the receive loop with
    an exception: bad JSON, payloads that are not objects and handlers that
    raise are all absorbed, and the loop is left only at the end of the
    stream, with an exception only when the receive itself raises. *)
Theorem frames_never_end_the_loop (io : IO) (inbound : list WSMsg)
    (stop : stream_end) (env : Env) :
  steady (ws io) env ->
  (receive_loop json_loads event_handler io handler inbound stop env).1
    = match stop with
      | ReceiveRaises message => Err (Exception message)
      | EndClosed | EndClosing => Ok tt
      end.
Proof.
  revert env. induction inbound as [|msg rest IH]; intros env Hs; simpl.
  - destruct stop; [| reflexivity | reflexivity].
    unfold io_close, bind. rewrite (steady_ws_closed _ _ Hs).
    destruct Hs as (w & Hw & _). unfold ws_close_at. rewrite Hw. reflexivity.
  - unfold bind at 1. rewrite (steady_ws_closed _ _ Hs).
    destruct (safe_loop_body io msg env Hs) as [[x Hx] Hs'].
    unfold bind.
    destruct (loop_body json_loads event_handler io handler msg env) as [[y|e] env'];
      simpl in *; [apply IH, Hs' | discriminate].
Qed.

End Loop.

Lemma frames_never_end_the_loop_witness :
  (receive_loop (loads_of [("[1]", JArr [JNum 1]); ("echo", JObj echo_fields)])
     no_event_handler echo_io (raises "boom")
     [TEXT "{oops"; TEXT "[1]"; BINARY; TEXT "echo"] EndClosing one_connection).1
  = Ok tt.
Proof.
  apply frames_never_end_the_loop.
  - intros event data has_callback. simpl. set_solver.
  - intros event h Hh. discriminate.
  - exists (fresh_ws []). repeat split; reflexivity.
Defined.

(** ** Broadcast and the filter *)

Lemma ws_send_json_touches (a : nat) (frame : json) (env : Env) :
  _socket_clients (ws_send_json a frame env).2 = _socket_clients env /\
  forall b, b ≠ a -> heap (ws_send_json a frame env).2 !! b = heap env !! b.
Proof.
  unfold ws_send_json.
  destruct (heap env !! a) as [w|]; [| split; reflexivity].
  destruct (send_json frame w) as [[|] w']; simpl;
    (split; [reflexivity | intros b Hb; apply lookup_insert_ne; congruence]).
Qed.

Lemma emit_all_touches (ios : list IO) (event data : json) (env : Env) :
  _socket_clients (emit_all ios event data env).2 = _socket_clients env /\
  forall b, b ∉ ws <$> ios -> heap (emit_all ios event data env).2 !! b = heap env !! b.
Proof.
  revert env. induction ios as [|io ios IH]; intros env; simpl.
  - split; reflexivity.
  - unfold bind, io_emit.
    destruct (ws_send_json_touches (ws io) (JObj [("event", event); ("data", data)]) env)
      as [Hreg Hheap].
    destruct (ws_send_json (ws io) _ env) as [[[]|e] env1]; simpl in *.
    + destruct (IH env1) as [Hreg1 Hheap1]. split; [congruence |].
      intros b Hb. apply not_elem_of_cons in Hb as [Hne Hb].
      rewrite (Hheap1 b Hb). apply Hheap, Hne.
    + split; [exact Hreg |]. intros b Hb. apply not_elem_of_cons in Hb as [Hne Hb].
      apply Hheap, Hne.
Qed.

Lemma NoDup_fmap_eq {A B : Type} (f : A -> B) (l : list A) (x y : A) :
  NoDup (f <$> l) -> x ∈ l -> y ∈ l -> f x = f y -> x = y.
Proof.
  induction l as [|z l IH]; intros Hnd Hx Hy Heq; [inversion Hx |].
  rewrite fmap_cons in Hnd. apply NoDup_cons in Hnd as [Hz Hnd].
  apply elem_of_cons in Hx as [->|Hx]; apply elem_of_cons in Hy as [->|Hy].
  - reflexivity.
  - exfalso. apply Hz. rewrite Heq. apply list_elem_of_fmap_2, Hy.
  - exfalso. apply Hz. rewrite <- Heq. apply list_elem_of_fmap_2, Hx.
  - apply IH; assumption.
Qed.

(** X18: [broadcast] never sends to a connection that the filter rejects,
    whether it ends normally or with the exception of a failed send, and
    it does not change the registry. *)
Theorem broadcast_spares_the_filtered (event : string) (data : json)
    (f : IO -> bool) (io : IO) (env : Env) :
  NoDup (ws <$> dict_values (_socket_clients env)) ->
  io ∈ dict_values (_socket_clients env) ->
  f io = false ->
  untouched env (broadcast event data (Some f) env).2 io /\
  _socket_clients (broadcast event data (Some f) env).2 = _socket_clients env.
Proof.
  intros Hnd Hin Hrej. unfold broadcast.
  rewrite (ServerProps.bind_ok _ _ env env (targets (Some f) env)) by reflexivity.
  destruct (emit_all_touches (targets (Some f) env) (JStr event) data env)
    as [Hreg Hheap].
  split; [| exact Hreg]. apply Hheap.
  intros Hmem. apply list_elem_of_fmap in Hmem as (io' & Heq & Hin').
  unfold targets in Hin'. apply list_elem_of_In, List.filter_In in Hin' as [Hin' Hf].
  apply list_elem_of_In in Hin'.
  assert (io = io') by (apply (NoDup_fmap_eq ws _ _ _ Hnd Hin Hin' Heq)).
  subst io'. congruence.
Qed.

Lemma broadcast_spares_the_filtered_witness :
  untouched three_connections
    (broadcast "news" (JStr "hello") (Some (fun io => Nat.eqb (ws io) 0))
       three_connections).2
    {| ws := 2; _id := "c" |}.
Proof.
  refine (proj1 (broadcast_spares_the_filtered "news" (JStr "hello")
                   (fun io => Nat.eqb (ws io) 0) {| ws := 2; _id := "c" |}
                   three_connections _ _ _)).
  - apply (bool_decide_unpack _). reflexivity.
  - simpl. set_solver.
  - reflexivity.
Defined.

(** ** Shutdown *)

Lemma close_all_spec (ios : list IO) (env : Env) :
  Forall (fun io => is_Some (heap env !! ws io)) ios ->
  (close_all ios env).1 = Ok tt /\
  _socket_clients (close_all ios env).2 = _socket_clients env /\
  forall a w, heap env !! a = Some w ->
    exists w', heap (close_all ios env).2 !! a = Some w' /\
               sent w' = sent w /\
               (closed w = true -> closed w' = true) /\
               (a ∈ ws <$> ios -> closed w' = true).
Proof.
  revert env. induction ios as [|io ios IH]; intros env Hall.
  - simpl. split; [reflexivity |]. split; [reflexivity |].
    intros a w Hw. exists w. split; [exact Hw |]. split; [reflexivity |].
    split; [auto |]. intros Hin. inversion Hin.
  - apply Forall_cons in Hall as [[w0 Hw0] Hall]. simpl.
    assert (Hclose : exists env1 w1,
               io_close io env = (Ok tt, env1) /\
               _socket_clients env1 = _socket_clients env /\
               heap env1 = <[ws io := w1]> (heap env) /\
               sent w1 = sent w0 /\ closed w1 = true).
    { unfold io_close, bind, ws_closed. rewrite Hw0.
      destruct (closed w0) eqn:Hc.
      - exists env, w0. split; [reflexivity |]. split; [reflexivity |].
        split; [symmetry; apply insert_id, Hw0 | split; [reflexivity | exact Hc]].
      - unfold ws_close_at. rewrite Hw0. eexists _, _.
        split; [reflexivity |]. repeat split. }
    destruct Hclose as (env1 & w1 & Hrun & Hreg1 & Hheap1 & Hsent1 & Hclosed1).
    rewrite (ServerProps.bind_ok _ _ env env1 tt Hrun).
    assert (Hall1 : Forall (fun io' => is_Some (heap env1 !! ws io')) ios).
    { eapply Forall_impl; [exact Hall |]. intros io' [w' Hw']. simpl in *.
      rewrite Hheap1. destruct (decide (ws io = ws io')) as [Heq|Hne].
      - rewrite Heq, lookup_insert_eq. eauto.
      - rewrite lookup_insert_ne by exact Hne. eauto. }
    destruct (IH env1 Hall1) as (Hok & Hreg & Hspec).
    split; [exact Hok |]. split; [congruence |].
    intros a w Hw. destruct (decide (a = ws io)) as [->|Hne].
    + rewrite Hw0 in Hw. injection Hw as <-.
      destruct (Hspec (ws io) w1) as (w' & Hw' & Hs & Hc & _).
      { rewrite Hheap1. apply lookup_insert_eq. }
      exists w'. split; [exact Hw' |]. split; [congruence |].
      split; intros _; apply Hc, Hclosed1.
    + destruct (Hspec a w) as (w' & Hw' & Hs & Hc & Hin).
      { rewrite Hheap1, lookup_insert_ne by congruence. exact Hw. }
      exists w'. split; [exact Hw' |]. split; [exact Hs |]. split; [exact Hc |].
      intros Ha. apply elem_of_cons in Ha as [Ha|Ha];
        [contradiction | apply Hin, Ha].
Qed.

(** X19: [stop], up to the shutdown of the application, closes the
    transport of every registered connection; it does not raise, sends no
    event frame and leaves the registry as it is (the entries go when the
    receive loops end). *)
Theorem stop_closes_every_connection (env : Env) :
  (stop env).1 = Ok tt /\
  _socket_clients (stop env).2 = _socket_clients env /\
  forall io w,
    io ∈ dict_values (_socket_clients env) ->
    heap env !! ws io = Some w ->
    exists w', heap (stop env).2 !! ws io = Some w' /\
               closed w' = true /\ sent w' = sent w.
Proof.
  unfold stop. destruct (_socket_clients env) as [|entry rest] eqn:Hreg.
  - split; [reflexivity |]. split; [exact Hreg |].
    intros io w Hin. inversion Hin.
  - rewrite <- Hreg.
    set (ios := List.filter (is_open env) (dict_values (_socket_clients env))).
    assert (Hall : Forall (fun io => is_Some (heap env !! ws io)) ios).
    { apply Forall_forall. intros io Hin.
      apply list_elem_of_In, List.filter_In in Hin as [_ Hopen].
      unfold is_open in Hopen. destruct (heap env !! ws io); [eauto | discriminate]. }
    destruct (close_all_spec ios env Hall) as (Hok & Hsame & Hspec).
    split; [exact Hok |]. split; [exact Hsame |].
    intros io w Hin Hw.
    destruct (Hspec (ws io) w Hw) as (w' & Hw' & Hs & Hc & Hmem).
    exists w'. split; [exact Hw' |]. split; [| exact Hs].
    destruct (closed w) eqn:Hcw; [apply Hc; reflexivity |].
    apply Hmem. apply list_elem_of_fmap_2.
    apply list_elem_of_In, List.filter_In. split; [apply list_elem_of_In, Hin |].
    unfold is_open. rewrite Hw, Hcw. reflexivity.
Qed.

End ServerMoreProps.

(** * Properties of the router *)

Module RouterProps.
Import Router.

Lemma chars_app (a b : string) : chars (a +:+ b) = chars a ++ chars b.
Proof.
  unfold chars. induction a as [|c a IH]; simpl; [reflexivity |].
  rewrite IH. reflexivity.
Qed.

Lemma text_chars (s : string) : text (chars s) = s.
Proof. apply String.string_of_list_ascii_of_string. Qed.

Lemma chars_text (l : list ascii) : chars (text l) = l.
Proof. apply String.list_ascii_of_string_of_list_ascii. Qed.

Lemma endswith_app (base suffix suffix' : string) :
  endswith (base +:+ suffix) suffix'
    = starts_with (rev (chars suffix')) (rev (chars suffix) ++ rev (chars base)).
Proof. unfold endswith. rewrite chars_app, rev_app_distr. reflexivity. Qed.

Lemma remove_suffix_app (base suffix : string) :
  remove_suffix (base +:+ suffix) suffix = base.
Proof.
  unfold remove_suffix. rewrite chars_app, rev_app_distr.
  rewrite <- (length_rev (chars suffix)), drop_app_length.
  rewrite rev_involutive. apply text_chars.
Qed.

(** X20: the naming convention.  A coroutine method whose name is a path
    name followed by one of the six suffixes (and is not [indexGet]) is
    registered for the methods of that suffix, [GET] and [POST] for
    [Action], under the prefix and the path name with every underscore
    turned into a slash. *)
Theorem suffix_names_the_method (prefix base suffix : string) :
  suffix ∈ all_suffixes ->
  base +:+ suffix ≠ "indexGet" ->
  member_routes prefix (base +:+ suffix)
    = (fun method =>
         (method, replace_underscores (prefix +:+ "/" +:+ base), base +:+ suffix))
      <$> methods_of suffix.
Proof.
  intros Hin Hne. apply String.eqb_neq in Hne.
  unfold member_routes, regex_search, regex_sub. rewrite Hne.
  unfold all_suffixes, method_suffixes in *. simpl in Hin.
  repeat (apply elem_of_cons in Hin as [->|Hin]); [.. | inversion Hin];
    cbn [List.flat_map List.existsb List.find snd fst app];
    rewrite !endswith_app; cbn [chars String.list_ascii_of_string rev app starts_with];
    cbn -[remove_suffix replace_underscores String.append];
    rewrite remove_suffix_app; reflexivity.
Qed.

Lemma suffix_names_the_method_witness :
  member_routes "/api" ("user_info" +:+ "Action")
    = [("GET", "/api/user/info", "user_infoAction");
       ("POST", "/api/user/info", "user_infoAction")].
Proof.
  rewrite (suffix_names_the_method "/api" "user_info" "Action").
  - reflexivity.
  - unfold all_suffixes, method_suffixes. simpl. set_solver.
  - discriminate.
Defined.

Lemma member_routes_path (prefix name : string) (route : Route) :
  route ∈ member_routes prefix name ->
  route.1.2 = replace_underscores (prefix +:+ "/" +:+ regex_sub name).
Proof.
  unfold member_routes.
  destruct (negb (regex_search name) || String.eqb name "indexGet");
    [intros H; inversion H |].
  intros H. apply list_elem_of_In, List.in_flat_map in H as (entry & _ & H).
  apply List.in_flat_map in H as (suffix & _ & H).
  destruct (endswith name suffix); [| destruct H].
  destruct (String.eqb entry.1 "ACTION"); simpl in H;
    repeat (destruct H as [<-|H]; [reflexivity |]); destruct H.
Qed.

Lemma replace_underscores_clean (s : string) :
  "_"%char ∉ chars (replace_underscores s).
Proof.
  unfold replace_underscores. rewrite chars_text.
  induction (chars s) as [|c l IH]; simpl.
  - intros Hin. inversion Hin.
  - intros Hin. apply elem_of_cons in Hin as [Hc|Hin]; [| exact (IH Hin)].
    destruct (Ascii.eqb_spec c "_"); [discriminate | congruence].
Qed.

Lemma lstrip_slash_subset (c : ascii) (l : list ascii) :
  c ∈ lstrip_slash l -> c ∈ l.
Proof.
  induction l as [|x l IH]; simpl; [auto |].
  destruct (Ascii.eqb x "/"); [| auto].
  intros H. apply elem_of_cons. right. exact (IH H).
Qed.

Lemma rstrip_slash_subset (c : ascii) (s : string) :
  c ∈ chars (rstrip_slash s) -> c ∈ chars s.
Proof.
  unfold rstrip_slash. rewrite chars_text.
  intros H. apply list_elem_of_In, List.in_rev, list_elem_of_In in H.
  apply lstrip_slash_subset in H.
  apply list_elem_of_In, List.in_rev, list_elem_of_In in H. exact H.
Qed.

Lemma index_path_underscore (prefix rest : string) :
  "_"%char ∉ chars rest ->
  "_"%char ∈ chars (rstrip_slash prefix +:+ rest) -> "_"%char ∈ chars prefix.
Proof.
  intros Hrest H. rewrite chars_app in H. apply elem_of_app in H as [H|H].
  - apply rstrip_slash_subset, H.
  - contradiction.
Qed.

(** X21: where underscores can be left in a registered path.  Of the
    routes of a router, only those of [indexGet] are registered without
    the replacement of underscores: every other path, that of the favicon
    and those of the naming convention, contains no underscore, the ones
    of the prefix being turned into slashes as well; a path of [indexGet]
    contains one only if the prefix does. *)
Theorem underscores_only_in_index_paths (prefix : string) (has_index : bool)
    (members : list string) (route : Route) :
  route ∈ routes prefix has_index members ->
  (route.2 ≠ "indexGet" -> "_"%char ∉ chars route.1.2) /\
  ("_"%char ∉ chars prefix -> "_"%char ∉ chars route.1.2).
Proof.
  unfold routes, _register_routes. intros H.
  apply elem_of_app in H as [H|H]; [| apply elem_of_app in H as [H|H]].
  - destruct has_index; [| inversion H].
    assert (Hname : route.2 = "indexGet").
    { repeat (apply elem_of_cons in H as [->|H]; [reflexivity |]). inversion H. }
    split; [intros Hne; contradiction |].
    intros Hp Hin. apply Hp.
    assert (Hslash : "_"%char ∉ chars "/").
    { intros Hc. apply elem_of_cons in Hc as [Hc|Hc]; [discriminate | inversion Hc]. }
    assert (Hindex : "_"%char ∉ chars "/index").
    { intros Hc. repeat (apply elem_of_cons in Hc as [Hc|Hc]; [discriminate |]).
      inversion Hc. }
    assert (Hempty : "_"%char ∉ chars "").
    { intros Hc. inversion Hc. }
    destruct (String.eqb (rstrip_slash prefix) "") eqn:E; simpl negb in H; cbv iota in H;
      repeat (apply elem_of_cons in H as [->|H];
              [simpl in Hin;
               first [ contradiction
                     | exact (index_path_underscore prefix _ Hslash Hin)
                     | exact (index_path_underscore prefix _ Hindex Hin)
                     | apply rstrip_slash_subset, Hin ] |]);
      inversion H.
  - apply elem_of_cons in H as [->|H]; [| inversion H]. simpl.
    assert (Hfav : "_"%char ∉ chars "/favicon.ico").
    { intros Hc. repeat (apply elem_of_cons in Hc as [Hc|Hc]; [discriminate |]).
      inversion Hc. }
    split; intros _; exact Hfav.
  - apply list_elem_of_In, List.in_flat_map in H as (name & _ & H).
    apply list_elem_of_In in H.
    rewrite (member_routes_path _ name route H).
    split; intros _; apply replace_underscores_clean.
Qed.

Lemma underscores_only_in_index_paths_witness :
  "_"%char ∉ chars "/api/v1/user/info".
Proof.
  refine (proj1 (underscores_only_in_index_paths "/api_v1/" true
                   ["helper"; "indexGet"; "user_infoGet"]
                   ("GET", "/api/v1/user/info", "user_infoGet") _) _).
  - vm_compute. set_solver.
  - discriminate.
Defined.

(** The paths of [indexGet] do keep the underscores of the prefix. *)
Example index_path_keeps_the_prefix :
  ("GET", "/api_v1/index", "indexGet")
    ∈ routes "/api_v1/" true ["helper"; "indexGet"; "user_infoGet"].
Proof. vm_compute. set_solver. Qed.

(** X22: a slash at the end of the prefix makes no difference to the routes
    of a router. *)
Theorem trailing_slash_in_prefix_ignored (prefix : string) (has_index : bool)
    (members : list string) :
  routes (prefix +:+ "/") has_index members = routes prefix has_index members.
Proof.
  unfold routes. f_equal. unfold rstrip_slash.
  rewrite chars_app, rev_app_distr. reflexivity.
Qed.

End RouterProps.

(** * The client and the server together *)

Module ProtocolProps.

(** X24: the two ends agree on the frames.  The frame a connected client
    emits with a callback, handed to [todo] on the server, makes a handler
    that replies [X] and returns nothing send back, on a transport that is
    open and takes the frame, a frame that, handled by that client, invokes
    the callback once with [X] and, the callback returning without a change
    to the client, leaves the registry of the client as it was before the
    request (the token being a new key). *)
Theorem reply_reaches_the_callback
    (json_loads : string -> option json)
    (call : Client.handler -> json -> Client.ClientSocket -> Client.outcome)
    (event : string) (data : json) (cb : Client.handler)
    (c : Client.ClientSocket)
    (event_handler : json -> option Server.Handler) (io : Server.IO)
    (handler : Server.Handler) (X Y : json) (w : WebSocket) (env : Server.Env)
    (reply : string) :
  let token := Client.ask_token event (Client.listener c) in
  let c1 := (Client.emit event data (Some cb) c).2 in
  let answer := JObj [("event", JStr event); ("data", X); ("callback", JStr token)] in
  Client.connected c = true ->
  Client.listener c !! token = None ->
  Server.resolve event_handler (JStr event) handler (JStr event) data true
    = ([Server.Reply X], Server.Return Y) ->
  truthy Y = false ->
  Server.heap env !! Server.ws io = Some w ->
  Server.sendable w = true ->
  json_loads reply = Some answer ->
  call cb X c1 = Client.Returned c1 ->
  sent <$> Server.heap
             (Server.todo event_handler io
                (Client.frame event data (Some token)) handler env).2
           !! Server.ws io
    = Some (sent w ++ [answer]) /\
  (Client.handle_message json_loads call reply c1).2 = [(cb, X)] /\
  Client.listener (Client.handle_message json_loads call reply c1).1
    = Client.listener c.
Proof.
  intros token c1 answer Hconn Hfresh Hres HY Hw Hs Hl Hcall.
  assert (Htok : truthy (JStr token) = true)
    by (apply ClientProps.truthy_token, ClientMoreProps.ask_token_nonempty).
  split; [| split].
  - destruct (ServerMoreProps.todo_reply_only_run event_handler io
                [("event", JStr event); ("data", data); ("callback", JStr token)]
                handler X Y w env Htok HY Hres Hw Hs) as (env2 & Hrun & Hheap).
    unfold Client.frame. simpl app. rewrite Hrun. simpl. rewrite Hheap. reflexivity.
  - subst c1.
    rewrite (ClientMoreProps.reply_consumes_token json_loads call event data cb
               reply [("event", JStr event); ("data", X); ("callback", JStr token)]
               c Hconn Hl eq_refl Hcall).
    reflexivity.
  - subst c1.
    rewrite (ClientMoreProps.reply_consumes_token json_loads call event data cb
               reply [("event", JStr event); ("data", X); ("callback", JStr token)]
               c Hconn Hl eq_refl Hcall).
    apply ClientMoreProps.un_emit_listener; assumption.
Qed.

Lemma reply_reaches_the_callback_witness :
  (Client.handle_message (Client.loads_of Client.echo_table) Client.call_returns
     "reply"
     (Client.emit "echo" (JStr "hi") (Some 1)
        (Client.set_ws (Some (fresh_ws [])) Client.init)).2).2
  = [(1, JStr "hi-back")].
Proof.
  refine (proj1 (proj2 (reply_reaches_the_callback
            (Client.loads_of Client.echo_table) Client.call_returns
            "echo" (JStr "hi") 1 (Client.set_ws (Some (fresh_ws [])) Client.init)
            Server.no_event_handler Server.echo_io
            (Server.reply_and_return (JStr "hi-back") JNull) (JStr "hi-back") JNull
            (fresh_ws []) Server.one_connection "reply"
            eq_refl eq_refl eq_refl eq_refl eq_refl eq_refl eq_refl eq_refl))).
Defined.

End ProtocolProps.
